(** * The tea store of [src/index.js]

    A shallow embedding of the Express application in [src/index.js]: the two
    module-level variables [teaData] and [nextId], the five route handlers
    that read and mutate them, and the pieces of JavaScript and of Express
    the handlers rely on ([parseInt], [Array.prototype.find], [findIndex],
    [splice], [push], [res.status(..).send(..)]).

    Conventions of the model.
    - A JavaScript string is its sequence of UTF-16 code units ([list N]);
      [str] turns an ASCII literal into one.
    - The numbers the program computes with ([nextId], the [id] fields, the
      result of [parseInt]) are integer valued; they are modelled as [Z], which
      is exact for a JavaScript Number below 2^53.  [NaN] is a separate
      constructor of [number].
    - [req.body] is the object produced by [express.json()]: a list of
      properties.  A property that is absent reads as [undefined].  When no
      body was parsed [req.body] is itself [undefined]; the handlers as
      registered, [app_post_teas] and [app_put_teas_id], take this case in,
      and reading a property of [undefined] throws a [TypeError].
    - The state is passed explicitly: a handler maps the store before the
      request to the store after it and the response that was sent. *)

From Stdlib Require Import ZArith NArith List String Ascii Sorted Lia.
From Stdlib Require QArith.
From stdpp Require Import base tactics option list sorting.

Open Scope Z_scope.

(** ** JavaScript values *)

Definition jsstring := list N.

Fixpoint str (s : string) : jsstring :=
  match s with
  | EmptyString => []
  | String a s' => N_of_ascii a :: str s'
  end.

(** The values JSON can carry, and [undefined] for what is absent. *)
#[local] Set Warnings "-register-all".
Inductive jsval :=
| VUndefined
| VNull
| VBool (b : bool)
| VNum (q : QArith_base.Q)
| VStr (s : jsstring)
| VArr (elems : list jsval)
| VObj (props : list (jsstring * jsval)).

Definition jsobject := list (jsstring * jsval).

(** [o[k]] for an own property of a parsed JSON object. *)
Fixpoint get_prop (o : jsobject) (k : jsstring) : jsval :=
  match o with
  | [] => VUndefined
  | (k', v) :: o' => if decide (k' = k) then v else get_prop o' k
  end.

(** A Number that is either [NaN] or an integer. *)
Inductive number :=
| NaN
| Num (z : Z).

(** [a === b] for an integer [a] and a Number [b]: [NaN] equals nothing. *)
Definition strict_eq (a : Z) (b : number) : bool :=
  match b with
  | NaN => false
  | Num z => a =? z
  end.

(** ** [parseInt(string)] with no radix argument (ECMA-262, 19.2.5) *)

(** WhiteSpace and LineTerminator code points, all in the basic plane. *)
Definition is_white_space (c : N) : bool :=
  ((c =? 0x09) || (c =? 0x0A) || (c =? 0x0B) || (c =? 0x0C) || (c =? 0x0D)
   || (c =? 0x20) || (c =? 0xA0) || (c =? 0x1680)
   || ((0x2000 <=? c) && (c <=? 0x200A))
   || (c =? 0x2028) || (c =? 0x2029) || (c =? 0x202F) || (c =? 0x205F)
   || (c =? 0x3000) || (c =? 0xFEFF))%N.

Fixpoint trim_start (s : jsstring) : jsstring :=
  match s with
  | [] => []
  | c :: s' => if is_white_space c then trim_start s' else s
  end.

(** The value of a code unit as a digit, letters counting from ten. *)
Definition digit_value (c : N) : option Z :=
  if ((48 <=? c) && (c <=? 57))%N then Some (Z.of_N c - 48)
  else if ((97 <=? c) && (c <=? 122))%N then Some (Z.of_N c - 97 + 10)
  else if ((65 <=? c) && (c <=? 90))%N then Some (Z.of_N c - 65 + 10)
  else None.

Definition radix_digit (R : Z) (c : N) : option Z :=
  match digit_value c with
  | Some d => if d <? R then Some d else None
  | None => None
  end.

(** The digits of the longest prefix of [s] made of radix-[R] digits. *)
Fixpoint digits_prefix (R : Z) (s : jsstring) : list Z :=
  match s with
  | [] => []
  | c :: s' =>
      match radix_digit R c with
      | Some d => d :: digits_prefix R s'
      | None => []
      end
  end.

Definition math_int (R : Z) (ds : list Z) : Z :=
  fold_left (fun acc d => acc * R + d) ds 0.

(** Step 3 and 4: the sign, and the string without it. *)
Definition strip_sign (s : jsstring) : Z * jsstring :=
  match s with
  | c :: s' =>
      if (c =? 45)%N then (-1, s')
      else if (c =? 43)%N then (1, s')
      else (1, s)
  | [] => (1, s)
  end.

(** Steps 5 to 9 with no radix argument: the radix is 16 after a prefix
    [0x] or [0X], which is removed, and 10 otherwise. *)
Definition strip_prefix (s : jsstring) : Z * jsstring :=
  match s with
  | c :: x :: s' =>
      if ((c =? 48) && ((x =? 120) || (x =? 88)))%N then (16, s') else (10, s)
  | _ => (10, s)
  end.

Definition parseInt (input : jsstring) : number :=
  let '(sign, s) := strip_sign (trim_start input) in
  let '(R, s) := strip_prefix s in
  match digits_prefix R s with
  | [] => NaN
  | ds => Num (sign * math_int R ds)
  end.

(** [String(n)] for an integer [n]: its decimal digits, most significant
    first, after a minus sign when it is negative. *)
Fixpoint decimal_digits (fuel : nat) (n : Z) : list Z :=
  match fuel with
  | O => []
  | S fuel' =>
      if n <? 10 then [n]
      else decimal_digits fuel' (n / 10) ++ [n mod 10]
  end.

Definition digit_char (d : Z) : N := Z.to_N (48 + d).

Definition Number_toString (n : Z) : jsstring :=
  if n <? 0
  then 45%N :: (digit_char <$> decimal_digits (S (Z.to_nat (Z.log2 (- n)))) (- n))
  else digit_char <$> decimal_digits (S (Z.to_nat (Z.log2 n))) n.

(** A string that is an integer in decimal notation: digits, at least one,
    after an optional minus sign. *)
Definition is_decimal_digit (c : N) : bool := ((48 <=? c) && (c <=? 57))%N.

Definition is_integer_string (s : jsstring) : bool :=
  match s with
  | [] => false
  | c :: s' =>
      if (c =? 45)%N
      then negb (bool_decide (s' = [])) && forallb is_decimal_digit s'
      else forallb is_decimal_digit s
  end.

(** ** The store *)

(** A tea object [{ id, name, price }]. *)
Record tea := Tea { id : Z; name : jsval; price : jsval }.

(** The module-level variables [teaData] and [nextId]. *)
Record store := Store { teaData : list tea; nextId : Z }.

(** [let teaData = []; let nextId = 1;] *)
Definition initial : store := {| teaData := []; nextId := 1 |}.

(** ** Responses *)

Inductive body :=
| Text (s : jsstring)
| TeaObj (t : tea)
| TeaArr (l : list tea).

Record response := Response { statusCode : Z; content : body }.

(** [res.status(code).send(chunk)].  Express's [send] replaces the chunk by
    the empty string when the status is 204 or 304, so that such a response
    goes out without a body whatever was passed to it.  The request is taken
    to carry no cache validator, so that the status is the one the handler
    set. *)
Definition send (code : Z) (chunk : body) : response :=
  if (code =? 204) || (code =? 304) then {| statusCode := code; content := Text [] |}
  else {| statusCode := code; content := chunk |}.

(** ** Array operations *)

(** [l.find(p)]: the first element satisfying [p] together with its position.
    The object that [find] returns is the one stored in the array, so the
    position is what a later assignment to its fields acts on. *)
Definition find (p : tea -> bool) (l : list tea) : option (nat * tea) :=
  list_find (fun t => Is_true (p t)) l.

(** [l.findIndex(p)]: the position of the first element satisfying [p], or
    [-1]. *)
Definition findIndex (p : tea -> bool) (l : list tea) : Z :=
  match list_find (fun t => Is_true (p t)) l with
  | Some (i, _) => Z.of_nat i
  | None => -1
  end.

(** [l.splice(start, 1)]: a negative [start] counts from the end, and a
    [start] past the end removes nothing. *)
Definition splice1 (l : list tea) (start : Z) : list tea :=
  let len := Z.of_nat (length l) in
  let from := if start <? 0 then Z.max (len + start) 0 else Z.min start len in
  delete (Z.to_nat from) l.

(** ** The operations of the record store *)

(** The body of [app.post("/teas")] once [name] and [price] are read. *)
Definition create (s : store) (name price : jsval) : store * response :=
  let newTea := {| id := nextId s; name := name; price := price |} in
  ({| teaData := teaData s ++ [newTea]; nextId := nextId s + 1 |},
   send 201 (TeaObj newTea)).

(** The body of [app.get("/teas")]. *)
Definition list_all (s : store) : store * response :=
  (s, send 200 (TeaArr (teaData s))).

(** The body of [app.get("/teas/:id")] for the parsed id [x]. *)
Definition getById (s : store) (x : number) : store * response :=
  match find (fun t => strict_eq (id t) x) (teaData s) with
  | None => (s, send 404 (Text (str "tea not found ")))
  | Some (_, tea) => (s, send 200 (TeaObj tea))
  end.

(** The body of [app.put("/teas/:id")] for the parsed id [x]. *)
Definition updateById (s : store) (x : number) (name price : jsval)
  : store * response :=
  match find (fun t => strict_eq (id t) x) (teaData s) with
  | None => (s, send 404 (Text (str "tea not found ")))
  | Some (i, tea) =>
      let tea' := {| id := id tea; name := name; price := price |} in
      ({| teaData := <[i := tea']> (teaData s); nextId := nextId s |},
       send 200 (TeaObj tea'))
  end.

(** The body of [app.delete("/teas/:id")] for the parsed id [x]. *)
Definition deleteById (s : store) (x : number) : store * response :=
  let index := findIndex (fun t => strict_eq (id t) x) (teaData s) in
  if index =? -1 then (s, send 404 (Text (str "tea not found")))
  else ({| teaData := splice1 (teaData s) index; nextId := nextId s |},
        send 204 (Text (str "deleted "))).

(** ** The routes *)

(** [POST /teas]: [const { name, price } = req.body]. *)
Definition post_teas (s : store) (req_body : jsobject) : store * response :=
  let name := get_prop req_body (str "name") in
  let price := get_prop req_body (str "price") in
  create s name price.

(** [GET /teas]. *)
Definition get_teas (s : store) : store * response := list_all s.

(** [GET /teas/:id]. *)
Definition get_teas_id (s : store) (req_params_id : jsstring)
  : store * response :=
  getById s (parseInt req_params_id).

(** [PUT /teas/:id]. *)
Definition put_teas_id (s : store) (req_params_id : jsstring)
  (req_body : jsobject) : store * response :=
  let name := get_prop req_body (str "name") in
  let price := get_prop req_body (str "price") in
  updateById s (parseInt req_params_id) name price.

(** [DELETE /teas/:id]. *)
Definition delete_teas_id (s : store) (req_params_id : jsstring)
  : store * response :=
  deleteById s (parseInt req_params_id).

(** ** Requests and runs *)

Inductive request :=
| POST_teas (req_body : jsobject)
| GET_teas
| GET_teas_id (req_params_id : jsstring)
| PUT_teas_id (req_params_id : jsstring) (req_body : jsobject)
| DELETE_teas_id (req_params_id : jsstring).

Definition handle (s : store) (r : request) : store * response :=
  match r with
  | POST_teas b => post_teas s b
  | GET_teas => get_teas s
  | GET_teas_id p => get_teas_id s p
  | PUT_teas_id p b => put_teas_id s p b
  | DELETE_teas_id p => delete_teas_id s p
  end.

(** The requests are served one after the other; [run] returns the final
    store and the responses in the order of the requests. *)
Fixpoint run (s : store) (rs : list request) : store * list response :=
  match rs with
  | [] => (s, [])
  | r :: rs' =>
      let '(s1, out) := handle s r in
      let '(s2, outs) := run s1 rs' in
      (s2, out :: outs)
  end.

(** The stores the program can be in. *)
Definition reachable (s : store) : Prop :=
  exists rs, (run initial rs).1 = s.

(** ** What a run has created *)

(** The record a response announces as created: the object of a 201. *)
Definition created (out : response) : option tea :=
  match content out with
  | TeaObj t => if statusCode out =? 201 then Some t else None
  | _ => None
  end.

Definition created_ids (outs : list response) : list Z :=
  omap (fun out => id <$> created out) outs.

Definition is_post (r : request) : bool :=
  match r with POST_teas _ => true | _ => false end.

Definition is_delete (r : request) : bool :=
  match r with DELETE_teas_id _ => true | _ => false end.

(** The number of create calls among the requests. *)
Definition posts (rs : list request) : nat :=
  length (filter (fun r => Is_true (is_post r)) rs).

(** The invariant of the store, relative to the ids [hist] handed out so
    far: the ids in the array are pairwise distinct, each of them was handed
    out, and [nextId] lies above everything that was handed out. *)
Definition invariant (s : store) (hist : list Z) : Prop :=
  NoDup (id <$> teaData s)
  /\ (forall t, t ∈ teaData s -> id t ∈ hist)
  /\ (forall i, i ∈ hist -> 1 <= i < nextId s)
  /\ 1 <= nextId s.

(** The ids [from], [from + 1], ..., [from + k - 1]. *)
Definition ids_from (from : Z) (k : nat) : list Z :=
  (fun n => from + Z.of_nat n) <$> seq 0 k.

(** The four ways a request can act on the store, with the ids it hands
    out. *)
Inductive effect (s : store) : store -> list Z -> Prop :=
| effect_none : effect s s []
| effect_create n p :
    effect s {| teaData := teaData s ++ [Tea (nextId s) n p];
                nextId := nextId s + 1 |} [nextId s]
| effect_update l1 t l2 n p :
    teaData s = l1 ++ t :: l2 ->
    effect s {| teaData := l1 ++ Tea (id t) n p :: l2; nextId := nextId s |} []
| effect_delete l1 t l2 :
    teaData s = l1 ++ t :: l2 ->
    effect s {| teaData := l1 ++ l2; nextId := nextId s |} [].

(** The records that create calls with the given bodies add to a store whose
    counter is [from]. *)
Definition created_teas (from : Z) (bodies : list jsobject) : list tea :=
  imap (fun k b => {| id := from + Z.of_nat k;
                      name := get_prop b (str "name");
                      price := get_prop b (str "price") |}) bodies.

(** Whether the string, once leading white space and a sign are removed,
    starts with a decimal digit. *)
Definition leading_digit (s : jsstring) : bool :=
  match (strip_sign (trim_start s)).2 with
  | c :: _ => is_decimal_digit c
  | [] => false
  end.

(** The 404 response with the given text. *)
Definition not_found (msg : string) : response :=
  {| statusCode := 404; content := Text (str msg) |}.

(** ** Counting over a run *)

(** The number of responses with the given status. *)
Fixpoint count_status (code : Z) (outs : list response) : Z :=
  match outs with
  | [] => 0
  | out :: outs' =>
      (if statusCode out =? code then 1 else 0) + count_status code outs'
  end.

(** The two routes registered with [app.get]. *)
Definition is_get (r : request) : bool :=
  match r with GET_teas | GET_teas_id _ => true | _ => false end.

(** ** Requests whose body may be missing *)

(** The exception a handler can raise. *)
Inductive jserror :=
| TypeError.

(** What comes of a call to a handler: a response was sent, or an exception
    left the handler, which Express answers with a 500. *)
Inductive outcome :=
| Sent (out : response)
| Thrown (e : jserror).

(** [app.post("/teas", ...)] with [req.body] as it reaches the handler:
    [None] is [undefined], and [req.body.price] then throws before anything
    else is done. *)
Definition app_post_teas (s : store) (req_body : option jsobject)
  : store * outcome :=
  match req_body with
  | None => (s, Thrown TypeError)
  | Some b =>
      let name := get_prop b (str "name") in
      let price := get_prop b (str "price") in
      let newTea := {| id := nextId s; name := name; price := price |} in
      ({| teaData := teaData s ++ [newTea]; nextId := nextId s + 1 |},
       Sent (send 201 (TeaObj newTea)))
  end.

(** [app.put("/teas/:id", ...)] with [req.body] as it reaches the handler:
    the record is looked up first, and the body is destructured, which throws
    when it is [undefined], only once the record is found. *)
Definition app_put_teas_id (s : store) (req_params_id : jsstring)
  (req_body : option jsobject) : store * outcome :=
  match find (fun t => strict_eq (id t) (parseInt req_params_id)) (teaData s) with
  | None => (s, Sent (send 404 (Text (str "tea not found "))))
  | Some (i, tea) =>
      match req_body with
      | None => (s, Thrown TypeError)
      | Some b =>
          let name := get_prop b (str "name") in
          let price := get_prop b (str "price") in
          let tea' := {| id := id tea; name := name; price := price |} in
          ({| teaData := <[i := tea']> (teaData s); nextId := nextId s |},
           Sent (send 200 (TeaObj tea')))
      end
  end.

Inductive http_request :=
| POST (req_body : option jsobject)
| GET_all
| GET_one (req_params_id : jsstring)
| PUT (req_params_id : jsstring) (req_body : option jsobject)
| DELETE (req_params_id : jsstring).

Definition serve (s : store) (c : http_request) : store * outcome :=
  match c with
  | POST b => app_post_teas s b
  | GET_all => ((get_teas s).1, Sent (get_teas s).2)
  | GET_one p => ((get_teas_id s p).1, Sent (get_teas_id s p).2)
  | PUT p b => app_put_teas_id s p b
  | DELETE p => ((delete_teas_id s p).1, Sent (delete_teas_id s p).2)
  end.

Fixpoint serve_all (s : store) (cs : list http_request)
  : store * list outcome :=
  match cs with
  | [] => (s, [])
  | c :: cs' =>
      let '(s1, out) := serve s c in
      let '(s2, outs) := serve_all s1 cs' in
      (s2, out :: outs)
  end.

(** The responses that were sent, in order. *)
Definition sent_responses (outs : list outcome) : list response :=
  omap (fun o => match o with Sent out => Some out | Thrown _ => None end) outs.

(** The request with its body, when the request needs none or has one. *)
Definition parsed (c : http_request) : option request :=
  match c with
  | POST (Some b) => Some (POST_teas b)
  | POST None => None
  | GET_all => Some GET_teas
  | GET_one p => Some (GET_teas_id p)
  | PUT p (Some b) => Some (PUT_teas_id p b)
  | PUT p None => None
  | DELETE p => Some (DELETE_teas_id p)
  end.


(** The integers a JavaScript Number holds exactly, with their neighbours:
    [Number.isSafeInteger]. *)
Definition safe_integer (n : Z) : Prop := - 2 ^ 53 < n < 2 ^ 53.

(** ** Sample data *)

(** The body [{ "name": n, "price": p }] and the record with these values. *)
Definition tea_body (n : string) (p : Z) : jsobject :=
  [(str "name", VStr (str n)); (str "price", VNum (QArith_base.Qmake p 1))].

Definition tea_record (i : Z) (n : string) (p : Z) : tea :=
  {| id := i; name := VStr (str n); price := VNum (QArith_base.Qmake p 1) |}.

Definition green_tea : jsobject := tea_body "Green Tea" 100.

(** The store after one create. *)
Definition one_tea : store := (post_teas initial green_tea).1.

(** ** Lemmas on the array operations *)

Section array.
Variable p : tea -> bool.

Lemma find_None l :
  find p l = None <-> (forall t, t ∈ l -> p t = false).
Proof.
  unfold find. rewrite list_find_None, Forall_forall.
  split; intros H t Ht; specialize (H t Ht).
  - destruct (p t); [by destruct H|done].
  - rewrite H. by intros [].
Qed.

Lemma find_Some l i t :
  find p l = Some (i, t) <->
  exists l1 l2, l = l1 ++ t :: l2 /\ length l1 = i /\ p t = true
                /\ (forall u, u ∈ l1 -> p u = false).
Proof.
  unfold find. rewrite list_find_Some. split.
  - intros (Hi & Hp & Hleast).
    exists (take i l), (drop (S i) l). split_and!.
    + by rewrite take_drop_middle.
    + apply length_take_le. apply lookup_lt_Some in Hi. lia.
    + by apply Is_true_true.
    + intros u Hu. apply list_elem_of_lookup in Hu as [j Hj].
      apply lookup_take_Some in Hj as [Hj Hlt].
      specialize (Hleast j u Hj Hlt). by destruct (p u); [destruct Hleast|].
  - intros (l1 & l2 & -> & <- & Hp & Hl1). split_and!.
    + by apply list_lookup_middle.
    + by rewrite Hp.
    + intros j y Hj Hlt. rewrite lookup_app_l in Hj by done.
      apply list_elem_of_lookup_2 in Hj. rewrite (Hl1 y Hj). by intros [].
Qed.

Lemma findIndex_None l :
  (forall t, t ∈ l -> p t = false) -> findIndex p l = -1.
Proof.
  intros H. apply find_None in H. unfold findIndex, find in *. by rewrite H.
Qed.

Lemma findIndex_Some l1 t l2 :
  p t = true -> (forall u, u ∈ l1 -> p u = false) ->
  findIndex p (l1 ++ t :: l2) = Z.of_nat (length l1).
Proof.
  intros Hp Hl1.
  assert (find p (l1 ++ t :: l2) = Some (length l1, t)) as H.
  { apply find_Some. by exists l1, l2. }
  unfold findIndex, find in *. by rewrite H.
Qed.

(** Every list either has no element satisfying [p] or splits at the first
    one. *)
Lemma first_match l :
  (forall t, t ∈ l -> p t = false)
  \/ exists l1 t l2, l = l1 ++ t :: l2 /\ p t = true
                     /\ (forall u, u ∈ l1 -> p u = false).
Proof.
  destruct (find p l) as [[i t]|] eqn:H.
  - right. apply find_Some in H as (l1 & l2 & ? & ? & ? & ?). by exists l1, t, l2.
  - left. by apply find_None.
Qed.
End array.

Lemma splice1_middle l1 t l2 :
  splice1 (l1 ++ t :: l2) (Z.of_nat (length l1)) = l1 ++ l2.
Proof.
  unfold splice1. rewrite length_app. simpl.
  destruct (Z.ltb_spec (Z.of_nat (length l1)) 0); [lia|].
  rewrite Z.min_l by lia. rewrite Nat2Z.id. apply delete_middle.
Qed.

Lemma strict_eq_Num a z : strict_eq a (Num z) = true <-> a = z.
Proof. simpl. apply Z.eqb_eq. Qed.

Lemma strict_eq_Num_false a z : strict_eq a (Num z) = false <-> a <> z.
Proof. simpl. apply Z.eqb_neq. Qed.

(** ** What each operation does *)

Section operations.
Variable s : store.

Lemma getById_absent x :
  (forall t, t ∈ teaData s -> strict_eq (id t) x = false) ->
  getById s x =
  (s, {| statusCode := 404; content := Text (str "tea not found ") |}).
Proof. intros H. apply find_None in H. unfold getById. by rewrite H. Qed.

Lemma getById_present x l1 t l2 :
  teaData s = l1 ++ t :: l2 ->
  strict_eq (id t) x = true ->
  (forall u, u ∈ l1 -> strict_eq (id u) x = false) ->
  getById s x = (s, {| statusCode := 200; content := TeaObj t |}).
Proof.
  intros Hs Ht Hl1.
  assert (find (fun t => strict_eq (id t) x) (teaData s)
          = Some (length l1, t)) as H.
  { apply find_Some. by exists l1, l2. }
  unfold getById. by rewrite H.
Qed.

Lemma updateById_absent x n p :
  (forall t, t ∈ teaData s -> strict_eq (id t) x = false) ->
  updateById s x n p =
  (s, {| statusCode := 404; content := Text (str "tea not found ") |}).
Proof. intros H. apply find_None in H. unfold updateById. by rewrite H. Qed.

Lemma updateById_present x n p l1 t l2 :
  teaData s = l1 ++ t :: l2 ->
  strict_eq (id t) x = true ->
  (forall u, u ∈ l1 -> strict_eq (id u) x = false) ->
  updateById s x n p =
  ({| teaData := l1 ++ Tea (id t) n p :: l2; nextId := nextId s |},
   {| statusCode := 200; content := TeaObj (Tea (id t) n p) |}).
Proof.
  intros Hs Ht Hl1.
  assert (find (fun t => strict_eq (id t) x) (teaData s)
          = Some (length l1, t)) as H.
  { apply find_Some. by exists l1, l2. }
  unfold updateById. rewrite H, Hs. cbn.
  by rewrite insert_app_r_alt, Nat.sub_diag by lia.
Qed.

Lemma deleteById_absent x :
  (forall t, t ∈ teaData s -> strict_eq (id t) x = false) ->
  deleteById s x =
  (s, {| statusCode := 404; content := Text (str "tea not found") |}).
Proof.
  intros H. unfold deleteById. by rewrite (findIndex_None _ _ H).
Qed.

Lemma deleteById_present x l1 t l2 :
  teaData s = l1 ++ t :: l2 ->
  strict_eq (id t) x = true ->
  (forall u, u ∈ l1 -> strict_eq (id u) x = false) ->
  deleteById s x =
  ({| teaData := l1 ++ l2; nextId := nextId s |},
   {| statusCode := 204; content := Text [] |}).
Proof.
  intros Hs Ht Hl1. unfold deleteById.
  rewrite Hs, (findIndex_Some _ l1 t l2 Ht Hl1), splice1_middle.
  destruct (Z.eqb_spec (Z.of_nat (length l1)) (-1)); [lia|done].
Qed.
End operations.

Lemma getById_effect s x :
  effect s (getById s x).1 (created_ids [(getById s x).2]).
Proof.
  destruct (first_match (fun t => strict_eq (id t) x) (teaData s))
    as [H|(l1 & t & l2 & Hs & Ht & Hl1)].
  - rewrite getById_absent by done. constructor.
  - rewrite (getById_present s x l1 t l2) by done. constructor.
Qed.

Lemma updateById_effect s x n p :
  effect s (updateById s x n p).1 (created_ids [(updateById s x n p).2]).
Proof.
  destruct (first_match (fun t => strict_eq (id t) x) (teaData s))
    as [H|(l1 & t & l2 & Hs & Ht & Hl1)].
  - rewrite updateById_absent by done. constructor.
  - rewrite (updateById_present s x n p l1 t l2) by done. by constructor.
Qed.

Lemma deleteById_effect s x :
  effect s (deleteById s x).1 (created_ids [(deleteById s x).2]).
Proof.
  destruct (first_match (fun t => strict_eq (id t) x) (teaData s))
    as [H|(l1 & t & l2 & Hs & Ht & Hl1)].
  - rewrite deleteById_absent by done. constructor.
  - rewrite (deleteById_present s x l1 t l2) by done. by econstructor.
Qed.

Lemma handle_effect s r :
  effect s (handle s r).1 (created_ids [(handle s r).2]).
Proof.
  destruct r as [b| |rid|rid b|rid]; simpl.
  - apply effect_create.
  - apply effect_none.
  - apply getById_effect.
  - apply updateById_effect.
  - apply deleteById_effect.
Qed.

Lemma effect_invariant s s' new hist :
  effect s s' new -> invariant s hist -> invariant s' (hist ++ new).
Proof.
  intros Heff (Hnd & Hin & Hlt & Hpos).
  destruct Heff as [|n p|l1 t l2 n p Hs|l1 t l2 Hs]; simpl.
  - by rewrite app_nil_r.
  - split_and!; simpl.
    + rewrite fmap_app. apply NoDup_app. split_and!; [done| |apply NoDup_singleton].
      intros i Hi ->%list_elem_of_singleton.
      apply list_elem_of_fmap in Hi as (t & Ht & Hi).
      apply Hin, Hlt in Hi. simpl in Ht. lia.
    + intros t [Ht| ->%list_elem_of_singleton]%elem_of_app; apply elem_of_app.
      * left. by apply Hin.
      * right. simpl. apply list_elem_of_singleton. done.
    + intros i [Hi| ->%list_elem_of_singleton]%elem_of_app.
      * apply Hlt in Hi. lia.
      * lia.
    + lia.
  - rewrite app_nil_r. rewrite Hs in *. split_and!; simpl.
    + by rewrite fmap_app, fmap_cons in *.
    + intros u Hu. apply elem_of_app in Hu as [Hu|Hu].
      * apply Hin, elem_of_app. by left.
      * apply elem_of_cons in Hu as [->|Hu]; simpl.
        -- apply (Hin t), elem_of_app. right. by left.
        -- apply Hin, elem_of_app. right. by right.
    + done.
    + done.
  - rewrite app_nil_r. rewrite Hs in *. split_and!; simpl.
    + rewrite fmap_app, fmap_cons in Hnd. rewrite fmap_app.
      apply NoDup_app in Hnd as (H1 & H2 & H3). apply NoDup_cons in H3 as [_ H3].
      apply NoDup_app. split_and!; [done| |done].
      intros i Hi Hi2. apply (H2 i Hi). by right.
    + intros u Hu. apply Hin. apply elem_of_app in Hu as [Hu|Hu]; apply elem_of_app; [by left|right; by right].
    + done.
    + done.
Qed.

(** ** Runs *)

Lemma run_cons s r rs :
  run s (r :: rs) =
  ((run (handle s r).1 rs).1, (handle s r).2 :: (run (handle s r).1 rs).2).
Proof. simpl. destruct (handle s r), (run _ rs). reflexivity. Qed.

Lemma created_ids_cons out outs :
  created_ids (out :: outs) = created_ids [out] ++ created_ids outs.
Proof. unfold created_ids. simpl. by destruct (id <$> created out). Qed.

Lemma ids_from_S from k : ids_from from (S k) = from :: ids_from (from + 1) k.
Proof.
  unfold ids_from. simpl. rewrite Z.add_0_r. f_equal.
  rewrite <- fmap_S_seq, <- list_fmap_compose. apply list_fmap_ext.
  intros _ n _. simpl. lia.
Qed.

Lemma ids_from_sorted from k : StronglySorted Z.lt (ids_from from k).
Proof.
  revert from. induction k as [|k IH]; intros from.
  - constructor.
  - rewrite ids_from_S. constructor; [apply IH|].
    apply Forall_forall. intros i Hi. unfold ids_from in Hi.
    apply list_elem_of_fmap in Hi as (n & -> & _). lia.
Qed.

Lemma getById_created s x : created_ids [(getById s x).2] = [].
Proof.
  destruct (first_match (fun t => strict_eq (id t) x) (teaData s))
    as [H|(l1 & t & l2 & Hs & Ht & Hl1)].
  - by rewrite getById_absent.
  - by rewrite (getById_present s x l1 t l2).
Qed.

Lemma updateById_created s x n p :
  created_ids [(updateById s x n p).2] = []
  /\ nextId (updateById s x n p).1 = nextId s.
Proof.
  destruct (first_match (fun t => strict_eq (id t) x) (teaData s))
    as [H|(l1 & t & l2 & Hs & Ht & Hl1)].
  - by rewrite updateById_absent.
  - by rewrite (updateById_present s x n p l1 t l2).
Qed.

Lemma deleteById_created s x :
  created_ids [(deleteById s x).2] = []
  /\ nextId (deleteById s x).1 = nextId s.
Proof.
  destruct (first_match (fun t => strict_eq (id t) x) (teaData s))
    as [H|(l1 & t & l2 & Hs & Ht & Hl1)].
  - by rewrite deleteById_absent.
  - by rewrite (deleteById_present s x l1 t l2).
Qed.

(** Only [POST /teas] hands out an id, and it hands out [nextId]. *)
Lemma handle_created s r :
  created_ids [(handle s r).2] = (if is_post r then [nextId s] else [])
  /\ nextId (handle s r).1 = (if is_post r then nextId s + 1 else nextId s).
Proof.
  destruct r as [b| |rid|rid b|rid]; simpl.
  - done.
  - done.
  - split; [apply getById_created|]. unfold get_teas_id, getById.
    by destruct (find _ _) as [[? ?]|].
  - apply updateById_created.
  - apply deleteById_created.
Qed.

Lemma posts_cons r rs :
  posts (r :: rs) = if is_post r then S (posts rs) else posts rs.
Proof.
  unfold posts. rewrite filter_cons.
  destruct (is_post r); destruct (decide _) as [H|H]; simpl in *; tauto.
Qed.

Lemma run_created rs : forall s,
  created_ids (run s rs).2 = ids_from (nextId s) (posts rs)
  /\ nextId (run s rs).1 = nextId s + Z.of_nat (posts rs).
Proof.
  induction rs as [|r rs IH]; intros s.
  - cbn. split; [done|lia].
  - rewrite run_cons, posts_cons. cbn [fst snd].
    rewrite created_ids_cons.
    destruct (handle_created s r) as [-> Hn].
    destruct (IH (handle s r).1) as [-> ->].
    rewrite Hn. destruct (is_post r).
    + rewrite ids_from_S. split; [done|lia].
    + done.
Qed.

Lemma run_invariant rs : forall s hist,
  invariant s hist ->
  invariant (run s rs).1 (hist ++ created_ids (run s rs).2).
Proof.
  induction rs as [|r rs IH]; intros s hist Hinv.
  - simpl. by rewrite app_nil_r.
  - rewrite run_cons. cbn [fst snd]. rewrite created_ids_cons, app_assoc.
    apply IH. eapply effect_invariant; [apply handle_effect|done].
Qed.

Lemma initial_invariant : invariant initial [].
Proof.
  split_and!; simpl.
  - constructor.
  - intros t Ht. by apply elem_of_nil in Ht.
  - intros i Hi. by apply elem_of_nil in Hi.
  - lia.
Qed.

(** In a store the program can be in, the ids are pairwise distinct and lie
    between 1 and [nextId]. *)
Lemma reachable_ids s :
  reachable s ->
  NoDup (id <$> teaData s) /\ (forall t, t ∈ teaData s -> 1 <= id t < nextId s).
Proof.
  intros [rs <-].
  destruct (run_invariant rs initial [] initial_invariant) as (Hnd & Hin & Hlt & _).
  split; [done|]. intros t Ht. by apply Hlt, Hin.
Qed.

Lemma posts_fmap_POST (bodies : list jsobject) :
  posts (POST_teas <$> bodies) = length bodies.
Proof.
  induction bodies as [|b bodies IH]; [done|].
  rewrite fmap_cons, posts_cons. simpl. by rewrite IH.
Qed.

(** ** [parseInt] reads back what [String] writes *)

Ltac digit_cases d H :=
  assert (d = 0 \/ d = 1 \/ d = 2 \/ d = 3 \/ d = 4 \/ d = 5 \/ d = 6
          \/ d = 7 \/ d = 8 \/ d = 9) as H by lia;
  destruct_or! H; subst d.

Lemma math_int_snoc R ds d : math_int R (ds ++ [d]) = math_int R ds * R + d.
Proof. unfold math_int. by rewrite fold_left_app. Qed.

Lemma decimal_digits_range fuel : forall n,
  0 <= n -> Forall (fun d => 0 <= d < 10) (decimal_digits fuel n).
Proof.
  induction fuel as [|fuel IH]; intros n Hn; simpl; [constructor|].
  destruct (Z.ltb_spec n 10).
  - repeat constructor; lia.
  - apply Forall_app. split.
    + apply IH. by apply Z.div_pos.
    + repeat constructor; apply Z.mod_pos_bound; lia.
Qed.

Lemma decimal_digits_value fuel : forall n,
  0 <= n < 10 ^ Z.of_nat fuel -> math_int 10 (decimal_digits fuel n) = n.
Proof.
  induction fuel as [|fuel IH]; intros n Hn.
  - simpl in *. cbv. lia.
  - simpl decimal_digits. destruct (Z.ltb_spec n 10).
    + cbn. lia.
    + rewrite math_int_snoc, IH.
      * pose proof (Z.div_mod n 10). lia.
      * rewrite Nat2Z.inj_succ, Z.pow_succ_r in Hn by lia. split.
        -- apply Z.div_pos; lia.
        -- apply Z.div_lt_upper_bound; lia.
Qed.

Lemma decimal_digits_cons fuel n :
  exists d ds, decimal_digits (S fuel) n = d :: ds.
Proof.
  simpl. destruct (n <? 10); [by eauto|].
  destruct (decimal_digits fuel (n / 10)) as [|d ds]; simpl; eauto.
Qed.

Lemma enough_fuel n : 0 <= n -> n < 10 ^ Z.of_nat (S (Z.to_nat (Z.log2 n))).
Proof.
  intros Hn. pose proof (Z.log2_nonneg n) as Hl.
  rewrite Nat2Z.inj_succ, Z2Nat.id by done.
  destruct (Z.eq_dec n 0) as [->|Hne]; [done|].
  destruct (Z.log2_spec n) as [_ Hlt]; [lia|].
  eapply Z.lt_le_trans; [exact Hlt|].
  apply Z.pow_le_mono_l. lia.
Qed.

Lemma radix_digit_char d : 0 <= d < 10 -> radix_digit 10 (digit_char d) = Some d.
Proof. intros Hd. digit_cases d H; reflexivity. Qed.

Lemma digits_prefix_chars ds :
  Forall (fun d => 0 <= d < 10) ds -> digits_prefix 10 (digit_char <$> ds) = ds.
Proof.
  induction 1 as [|d ds Hd _ IH]; [done|].
  rewrite fmap_cons. simpl. by rewrite radix_digit_char, IH.
Qed.

Lemma trim_start_char d s :
  0 <= d < 10 -> trim_start (digit_char d :: s) = digit_char d :: s.
Proof. intros Hd. digit_cases d H; reflexivity. Qed.

Lemma strip_sign_char d s :
  0 <= d < 10 -> strip_sign (digit_char d :: s) = (1, digit_char d :: s).
Proof. intros Hd. digit_cases d H; reflexivity. Qed.

Lemma strip_prefix_chars ds :
  Forall (fun d => 0 <= d < 10) ds ->
  strip_prefix (digit_char <$> ds) = (10, digit_char <$> ds).
Proof.
  intros Hds. destruct Hds as [|d ds Hd Hds]; [done|].
  destruct Hds as [|d' ds' Hd' _].
  - digit_cases d H; reflexivity.
  - digit_cases d H; try reflexivity.
    digit_cases d' H; reflexivity.
Qed.

Lemma parseInt_chars d ds :
  Forall (fun d => 0 <= d < 10) (d :: ds) ->
  parseInt (digit_char <$> d :: ds) = Num (math_int 10 (d :: ds)).
Proof.
  intros Hds. pose proof (Forall_inv Hds) as Hd. simpl in Hd.
  unfold parseInt. rewrite fmap_cons, trim_start_char, strip_sign_char by done.
  rewrite <- fmap_cons, strip_prefix_chars, digits_prefix_chars by done.
  by rewrite Z.mul_1_l.
Qed.

Lemma parseInt_minus_chars d ds :
  Forall (fun d => 0 <= d < 10) (d :: ds) ->
  parseInt (45%N :: (digit_char <$> d :: ds)) = Num (- math_int 10 (d :: ds)).
Proof.
  intros Hds. unfold parseInt.
  change (trim_start (45%N :: (digit_char <$> d :: ds)))
    with (45%N :: (digit_char <$> d :: ds)).
  change (strip_sign (45%N :: (digit_char <$> d :: ds)))
    with (-1, digit_char <$> d :: ds).
  cbv beta iota.
  rewrite strip_prefix_chars, digits_prefix_chars by done.
  f_equal; lia.
Qed.

(** [parseInt(String(n))] is [n] for every integer [n]. *)
Lemma parseInt_Number_toString n : parseInt (Number_toString n) = Num n.
Proof.
  unfold Number_toString. destruct (Z.ltb_spec n 0) as [Hn|Hn].
  - destruct (decimal_digits_cons (Z.to_nat (Z.log2 (- n))) (- n))
      as (d & ds & Hds).
    pose proof (decimal_digits_range (S (Z.to_nat (Z.log2 (- n)))) (- n)) as Hr.
    pose proof (decimal_digits_value (S (Z.to_nat (Z.log2 (- n)))) (- n)) as Hv.
    rewrite Hds in *. rewrite parseInt_minus_chars by (apply Hr; lia).
    rewrite Hv; [f_equal; lia|]. split; [lia|]. apply enough_fuel. lia.
  - destruct (decimal_digits_cons (Z.to_nat (Z.log2 n)) n) as (d & ds & Hds).
    pose proof (decimal_digits_range (S (Z.to_nat (Z.log2 n))) n) as Hr.
    pose proof (decimal_digits_value (S (Z.to_nat (Z.log2 n))) n) as Hv.
    rewrite Hds in *. rewrite parseInt_chars by (apply Hr; lia).
    rewrite Hv; [done|]. split; [lia|]. by apply enough_fuel.
Qed.

Lemma present_split s i :
  (exists t, t ∈ teaData s /\ id t = i) ->
  exists l1 t l2, teaData s = l1 ++ t :: l2 /\ id t = i
                  /\ (forall u, u ∈ l1 -> strict_eq (id u) (Num i) = false).
Proof.
  intros (t0 & Hin & Hid).
  destruct (first_match (fun t => strict_eq (id t) (Num i)) (teaData s))
    as [H|(l1 & t & l2 & Hs & Ht & Hl1)].
  - specialize (H t0 Hin). apply strict_eq_Num_false in H. done.
  - apply strict_eq_Num in Ht. by exists l1, t, l2.
Qed.

Lemma absent_strict_eq (l : list tea) i :
  (forall t, t ∈ l -> id t <> i) ->
  forall t, t ∈ l -> strict_eq (id t) (Num i) = false.
Proof. intros H t Ht. apply strict_eq_Num_false. by apply H. Qed.

(** ** Runs of create calls, and runs without a delete *)

Lemma created_teas_cons from b bodies :
  created_teas from (b :: bodies)
  = Tea from (get_prop b (str "name")) (get_prop b (str "price"))
    :: created_teas (from + 1) bodies.
Proof.
  unfold created_teas. rewrite imap_cons, Z.add_0_r. f_equal.
  apply imap_ext. intros k b' _. simpl. f_equal. lia.
Qed.

Lemma run_creates bodies : forall s,
  (run s (POST_teas <$> bodies)).1
  = {| teaData := teaData s ++ created_teas (nextId s) bodies;
       nextId := nextId s + Z.of_nat (length bodies) |}.
Proof.
  induction bodies as [|b bodies IH]; intros s.
  - destruct s as [l nid]. cbn. by rewrite app_nil_r, Z.add_0_r.
  - rewrite fmap_cons, run_cons. cbn [fst]. rewrite IH, created_teas_cons.
    cbn [handle post_teas create fst teaData nextId length].
    rewrite <- app_assoc. f_equal. lia.
Qed.

Lemma getById_store s x : (getById s x).1 = s.
Proof. unfold getById. by destruct (find _ _) as [[? ?]|]. Qed.

Lemma updateById_ids s x n p :
  id <$> teaData (updateById s x n p).1 = id <$> teaData s.
Proof.
  destruct (first_match (fun t => strict_eq (id t) x) (teaData s))
    as [H|(l1 & t & l2 & Hs & Ht & Hl1)].
  - by rewrite updateById_absent.
  - rewrite (updateById_present s x n p l1 t l2), Hs by done.
    cbn [fst teaData]. by rewrite !fmap_app, !fmap_cons.
Qed.

(** A request other than a delete keeps the ids of the array in place and
    appends the id it hands out, if any. *)
Lemma handle_ids_no_delete s r :
  is_delete r = false ->
  id <$> teaData (handle s r).1
  = (id <$> teaData s) ++ created_ids [(handle s r).2].
Proof.
  intros Hr. destruct r as [b| |rid|rid b|rid]; [| | | |done]; cbn [handle].
  - simpl. by rewrite fmap_app.
  - simpl. by rewrite app_nil_r.
  - unfold get_teas_id. by rewrite getById_store, getById_created, app_nil_r.
  - unfold put_teas_id. rewrite updateById_ids.
    destruct (updateById_created s (parseInt rid)
                (get_prop b (str "name")) (get_prop b (str "price"))) as [-> _].
    by rewrite app_nil_r.
Qed.

Lemma run_ids_no_delete rs : forall s,
  Forall (fun r => is_delete r = false) rs ->
  id <$> teaData (run s rs).1
  = (id <$> teaData s) ++ created_ids (run s rs).2.
Proof.
  induction rs as [|r rs IH]; intros s Hrs.
  - cbn. by rewrite app_nil_r.
  - apply Forall_cons in Hrs as [Hr Hrs].
    rewrite run_cons. cbn [fst snd].
    rewrite created_ids_cons, IH, handle_ids_no_delete, app_assoc by done.
    done.
Qed.

(** ** Strings that [parseInt] rejects *)

Lemma radix_digit_not_decimal c :
  is_decimal_digit c = false -> radix_digit 10 c = None.
Proof.
  unfold radix_digit, digit_value, is_decimal_digit. intros ->.
  destruct ((97 <=? c)%N && (c <=? 122)%N) eqn:H1.
  { apply andb_prop in H1 as [H1 _]. apply N.leb_le in H1.
    destruct (Z.ltb_spec (Z.of_N c - 97 + 10) 10); [exfalso; lia|done]. }
  destruct ((65 <=? c)%N && (c <=? 90)%N) eqn:H2; [|done].
  apply andb_prop in H2 as [H2 _]. apply N.leb_le in H2.
  destruct (Z.ltb_spec (Z.of_N c - 65 + 10) 10); [exfalso; lia|done].
Qed.

Lemma strip_prefix_not_decimal c s :
  is_decimal_digit c = false -> strip_prefix (c :: s) = (10, c :: s).
Proof.
  intros Hc. destruct s as [|x s]; [done|]. simpl.
  destruct (N.eqb_spec c 48) as [->|]; [done|]. reflexivity.
Qed.

Lemma parseInt_no_leading_digit s : leading_digit s = false -> parseInt s = NaN.
Proof.
  unfold leading_digit, parseInt.
  destruct (strip_sign (trim_start s)) as [sign [|c s']]; simpl snd.
  - reflexivity.
  - intros Hc. rewrite strip_prefix_not_decimal by done.
    simpl. by rewrite radix_digit_not_decimal.
Qed.

(** ** The scenario of the specification *)

(** Two creates, a list, an update of the first record, a delete of the
    second, a lookup of the deleted record and a final list. *)
Example scenario :
  run initial
    [POST_teas (tea_body "Green Tea" 100);
     POST_teas (tea_body "Black Tea" 80);
     GET_teas;
     PUT_teas_id (str "1") (tea_body "Green Tea Updated" 120);
     DELETE_teas_id (str "2");
     GET_teas_id (str "2");
     GET_teas]
  = ({| teaData := [tea_record 1 "Green Tea Updated" 120]; nextId := 3 |},
     [ {| statusCode := 201; content := TeaObj (tea_record 1 "Green Tea" 100) |};
       {| statusCode := 201; content := TeaObj (tea_record 2 "Black Tea" 80) |};
       {| statusCode := 200;
          content := TeaArr [tea_record 1 "Green Tea" 100;
                             tea_record 2 "Black Tea" 80] |};
       {| statusCode := 200;
          content := TeaObj (tea_record 1 "Green Tea Updated" 120) |};
       {| statusCode := 204; content := Text [] |};
       not_found "tea not found ";
       {| statusCode := 200;
          content := TeaArr [tea_record 1 "Green Tea Updated" 120] |} ]).
Proof. reflexivity. Qed.

(** * The claims *)

(** C1: Whatever requests are served from the initial store, and in
    particular for every sequence of create calls, the ids of the records the
    create calls return are 1, 2, 3, ... in this order, hence strictly
    increasing starting at 1; the records in the store have pairwise distinct
    ids; [nextId] is strictly greater than every id ever returned by a create
    call, whether the record was deleted since or not; and every operation
    preserves the invariant that states this. *)
Theorem ids_increasing_unique_below_nextId
  (bodies : list jsobject) (rs : list request)
  (s : store) (hist : list Z) (r : request) :
  created_ids (run initial (POST_teas <$> bodies)).2
    = ids_from 1 (length bodies)
  /\ created_ids (run initial rs).2 = ids_from 1 (posts rs)
  /\ StronglySorted Z.lt (created_ids (run initial rs).2)
  /\ NoDup (id <$> teaData (run initial rs).1)
  /\ (forall i, i ∈ created_ids (run initial rs).2 ->
                i < nextId (run initial rs).1)
  /\ invariant (run initial rs).1 (created_ids (run initial rs).2)
  /\ (invariant s hist ->
      invariant (handle s r).1 (hist ++ created_ids [(handle s r).2])).
Proof.
  pose proof (run_invariant rs initial [] initial_invariant) as Hinv.
  rewrite app_nil_l in Hinv.
  destruct (run_created rs initial) as [Hrs _].
  split_and!.
  - destruct (run_created (POST_teas <$> bodies) initial) as [-> _].
    by rewrite posts_fmap_POST.
  - done.
  - rewrite Hrs. apply ids_from_sorted.
  - apply Hinv.
  - intros i Hi. destruct Hinv as (_ & _ & Hlt & _). apply Hlt in Hi. lia.
  - done.
  - intros H. eapply effect_invariant; [apply handle_effect|done].
Qed.

Lemma ids_increasing_unique_below_nextId_witness :
  invariant one_tea [1]
  /\ invariant (handle one_tea (POST_teas [])).1
       ([1] ++ created_ids [(handle one_tea (POST_teas [])).2]).
Proof.
  assert (invariant one_tea [1]) as H.
  { split_and!; simpl.
    - apply NoDup_singleton.
    - intros t ->%list_elem_of_singleton. simpl. by left.
    - intros i ->%list_elem_of_singleton. lia.
    - lia. }
  split; [exact H|].
  apply (ids_increasing_unique_below_nextId
           [green_tea] [POST_teas green_tea; DELETE_teas_id (str "1")]
           one_tea [1] (POST_teas [])).
  exact H.
Defined.

(** C2: In every store the program can be in, after [create(n, p)] has
    returned a record, [getById] on the id of that record returns a record
    equal to [{id: returned.id, name: n, price: p}]; this holds as well for
    the route [GET /teas/:id] called with the id written in decimal. *)
Theorem get_after_create (s : store) (n p : jsval) :
  reachable s ->
  exists returned,
    (create s n p).2 = {| statusCode := 201; content := TeaObj returned |}
    /\ getById (create s n p).1 (Num (id returned))
       = ((create s n p).1,
          {| statusCode := 200;
             content := TeaObj {| id := id returned; name := n; price := p |} |})
    /\ get_teas_id (create s n p).1 (Number_toString (id returned))
       = ((create s n p).1,
          {| statusCode := 200;
             content := TeaObj {| id := id returned; name := n; price := p |} |}).
Proof.
  intros Hs. destruct (reachable_ids s Hs) as [_ Hlt].
  exists (Tea (nextId s) n p).
  assert (getById (create s n p).1 (Num (nextId s))
          = ((create s n p).1,
             {| statusCode := 200; content := TeaObj (Tea (nextId s) n p) |}))
    as Hget.
  { apply (getById_present _ _ (teaData s) (Tea (nextId s) n p) []).
    - reflexivity.
    - by apply strict_eq_Num.
    - intros u Hu. apply strict_eq_Num_false. specialize (Hlt u Hu). lia. }
  split_and!; [reflexivity|exact Hget|].
  unfold get_teas_id. rewrite parseInt_Number_toString. exact Hget.
Qed.

Lemma get_after_create_witness :
  reachable initial
  /\ exists returned,
    (create initial VNull (VBool true)).2
      = {| statusCode := 201; content := TeaObj returned |}
    /\ getById (create initial VNull (VBool true)).1 (Num (id returned))
       = ((create initial VNull (VBool true)).1,
          {| statusCode := 200;
             content := TeaObj {| id := id returned; name := VNull;
                                  price := VBool true |} |})
    /\ get_teas_id (create initial VNull (VBool true)).1
         (Number_toString (id returned))
       = ((create initial VNull (VBool true)).1,
          {| statusCode := 200;
             content := TeaObj {| id := id returned; name := VNull;
                                  price := VBool true |} |}).
Proof.
  assert (reachable initial) as H by (by exists []).
  split; [exact H|]. exact (get_after_create initial VNull (VBool true) H).
Defined.

(** C3: In every store, for every id that no record of the store has,
    [updateById] and [deleteById] answer 404 and leave the store, that is
    the array of records and [nextId], as it was; so do the routes
    [PUT /teas/:id] and [DELETE /teas/:id] called with that id in decimal. *)
Theorem update_delete_missing_id
  (s : store) (i : Z) (n p : jsval) (req_body : jsobject) :
  (forall t, t ∈ teaData s -> id t <> i) ->
  updateById s (Num i) n p = (s, not_found "tea not found ")
  /\ deleteById s (Num i) = (s, not_found "tea not found")
  /\ put_teas_id s (Number_toString i) req_body
     = (s, not_found "tea not found ")
  /\ delete_teas_id s (Number_toString i) = (s, not_found "tea not found").
Proof.
  intros H. pose proof (absent_strict_eq _ _ H) as H'.
  unfold put_teas_id, delete_teas_id. rewrite parseInt_Number_toString.
  split_and!.
  - by apply updateById_absent.
  - by apply deleteById_absent.
  - by apply updateById_absent.
  - by apply deleteById_absent.
Qed.

Lemma update_delete_missing_id_witness :
  (forall t, t ∈ teaData one_tea -> id t <> 7)
  /\ updateById one_tea (Num 7) VNull VNull
     = (one_tea, not_found "tea not found ")
  /\ deleteById one_tea (Num 7) = (one_tea, not_found "tea not found")
  /\ put_teas_id one_tea (Number_toString 7) green_tea
     = (one_tea, not_found "tea not found ")
  /\ delete_teas_id one_tea (Number_toString 7)
     = (one_tea, not_found "tea not found").
Proof.
  assert (forall t, t ∈ teaData one_tea -> id t <> 7) as H.
  { intros t ->%list_elem_of_singleton. simpl. lia. }
  split; [exact H|].
  exact (update_delete_missing_id one_tea 7 VNull VNull green_tea H).
Defined.

(** C4: In every store the program can be in, for every id of a record of
    the store, [deleteById] removes that one record from the array and keeps
    the others in their order, leaves [nextId] alone, and no record of the
    resulting store has the id, so that a following [getById] on the id
    answers 404. *)
Theorem delete_removes_one (s : store) (i : Z) :
  reachable s ->
  (exists t, t ∈ teaData s /\ id t = i) ->
  exists l1 t l2,
    teaData s = l1 ++ t :: l2
    /\ id t = i
    /\ (deleteById s (Num i)).1 = {| teaData := l1 ++ l2; nextId := nextId s |}
    /\ length (teaData (deleteById s (Num i)).1) = (length (teaData s) - 1)%nat
    /\ (forall u, u ∈ teaData (deleteById s (Num i)).1 -> id u <> i)
    /\ getById (deleteById s (Num i)).1 (Num i)
       = ((deleteById s (Num i)).1, not_found "tea not found ").
Proof.
  intros Hs Hin. destruct (reachable_ids s Hs) as [Hnd _].
  destruct (present_split s i Hin) as (l1 & t & l2 & Hl & Hid & Hl1).
  exists l1, t, l2.
  rewrite (deleteById_present s (Num i) l1 t l2 Hl)
    by (done || by apply strict_eq_Num).
  cbn [fst teaData].
  assert (forall u, u ∈ l1 ++ l2 -> id u <> i) as Hne.
  { rewrite Hl, fmap_app, fmap_cons in Hnd.
    apply NoDup_app in Hnd as (_ & Hdisj & [Hnot _]%NoDup_cons).
    intros u [Hu|Hu]%elem_of_app Heq.
    - specialize (Hl1 u Hu). by apply strict_eq_Num_false in Hl1.
    - apply Hnot. rewrite Hid, <- Heq. by apply list_elem_of_fmap_2. }
  split_and!; try done.
  - rewrite Hl, !length_app. simpl. lia.
  - apply getById_absent. by apply absent_strict_eq.
Qed.

Lemma delete_removes_one_witness :
  reachable one_tea
  /\ (exists t, t ∈ teaData one_tea /\ id t = 1)
  /\ exists l1 t l2,
    teaData one_tea = l1 ++ t :: l2
    /\ id t = 1
    /\ (deleteById one_tea (Num 1)).1
       = {| teaData := l1 ++ l2; nextId := nextId one_tea |}
    /\ length (teaData (deleteById one_tea (Num 1)).1)
       = (length (teaData one_tea) - 1)%nat
    /\ (forall u, u ∈ teaData (deleteById one_tea (Num 1)).1 -> id u <> 1)
    /\ getById (deleteById one_tea (Num 1)).1 (Num 1)
       = ((deleteById one_tea (Num 1)).1, not_found "tea not found ").
Proof.
  assert (reachable one_tea) as H1 by (by exists [POST_teas green_tea]).
  assert (exists t, t ∈ teaData one_tea /\ id t = 1) as H2.
  { eexists. split; [by left|reflexivity]. }
  split_and!; [exact H1|exact H2|].
  exact (delete_removes_one one_tea 1 H1 H2).
Defined.

(** C5: In every store, for every id of a record of the store,
    [updateById] replaces both the name and the price of the first record
    with that id (the only one in a store the program can be in) by the
    values supplied, keeps its id and every other record, and returns the
    record as it now is; through [PUT /teas/:id] the two values are the
    [name] and [price] of the body, [undefined] when the body lacks them. *)
Theorem update_overwrites_name_and_price
  (s : store) (i : Z) (n p : jsval) (req_body : jsobject) :
  (exists t, t ∈ teaData s /\ id t = i) ->
  exists l1 t l2,
    teaData s = l1 ++ t :: l2
    /\ id t = i
    /\ (forall u, u ∈ l1 -> id u <> i)
    /\ (reachable s -> forall u, u ∈ l2 -> id u <> i)
    /\ updateById s (Num i) n p
       = ({| teaData := l1 ++ {| id := i; name := n; price := p |} :: l2;
             nextId := nextId s |},
          {| statusCode := 200;
             content := TeaObj {| id := i; name := n; price := p |} |})
    /\ put_teas_id s (Number_toString i) req_body
       = updateById s (Num i) (get_prop req_body (str "name"))
                              (get_prop req_body (str "price")).
Proof.
  intros Hin.
  destruct (present_split s i Hin) as (l1 & t & l2 & Hl & Hid & Hl1).
  exists l1, t, l2. subst i. split_and!.
  - done.
  - done.
  - intros u Hu. specialize (Hl1 u Hu). by apply strict_eq_Num_false in Hl1.
  - intros Hs u Hu Heq. destruct (reachable_ids s Hs) as [Hnd _].
    rewrite Hl, fmap_app, fmap_cons in Hnd.
    apply NoDup_app in Hnd as (_ & _ & [Hnot _]%NoDup_cons).
    apply Hnot. rewrite <- Heq. by apply list_elem_of_fmap_2.
  - apply updateById_present; [done| |done]. by apply strict_eq_Num.
  - unfold put_teas_id. by rewrite parseInt_Number_toString.
Qed.

Lemma update_overwrites_name_and_price_witness :
  (exists t, t ∈ teaData one_tea /\ id t = 1)
  /\ exists l1 t l2,
    teaData one_tea = l1 ++ t :: l2
    /\ id t = 1
    /\ (forall u, u ∈ l1 -> id u <> 1)
    /\ (reachable one_tea -> forall u, u ∈ l2 -> id u <> 1)
    /\ updateById one_tea (Num 1) VUndefined (VBool false)
       = ({| teaData := l1 ++ {| id := 1; name := VUndefined;
                                 price := VBool false |} :: l2;
             nextId := nextId one_tea |},
          {| statusCode := 200;
             content := TeaObj {| id := 1; name := VUndefined;
                                  price := VBool false |} |})
    /\ put_teas_id one_tea (Number_toString 1) []
       = updateById one_tea (Num 1) (get_prop [] (str "name"))
                                    (get_prop [] (str "price")).
Proof.
  assert (exists t, t ∈ teaData one_tea /\ id t = 1) as H.
  { eexists. split; [by left|reflexivity]. }
  split; [exact H|].
  exact (update_overwrites_name_and_price one_tea 1 VUndefined (VBool false) [] H).
Defined.

(** C6: From the initial store, after k create calls the list operation
    answers 200 with exactly the k records created, in the order of the
    calls; more generally, after any requests none of which is a delete, it
    returns as many records as there were create calls, with the ids 1, 2,
    ..., k in this order.  The list operation returns the array and leaves
    the store as it is, so calling it again returns the same. *)
Theorem list_after_creates
  (bodies : list jsobject) (rs : list request) (s : store) :
  list_all (run initial (POST_teas <$> bodies)).1
  = ((run initial (POST_teas <$> bodies)).1,
     {| statusCode := 200; content := TeaArr (created_teas 1 bodies) |})
  /\ length (created_teas 1 bodies) = length bodies
  /\ (Forall (fun r => is_delete r = false) rs ->
      exists l,
        list_all (run initial rs).1
        = ((run initial rs).1, {| statusCode := 200; content := TeaArr l |})
        /\ id <$> l = ids_from 1 (posts rs)
        /\ length l = posts rs)
  /\ list_all s = (s, {| statusCode := 200; content := TeaArr (teaData s) |})
  /\ list_all (list_all s).1 = list_all s.
Proof.
  split_and!.
  - rewrite run_creates. reflexivity.
  - apply length_imap.
  - intros Hrs. exists (teaData (run initial rs).1).
    pose proof (run_ids_no_delete rs initial Hrs) as Hids.
    destruct (run_created rs initial) as [Hc _].
    rewrite Hc in Hids. cbn in Hids.
    split_and!; [reflexivity|exact Hids|].
    rewrite <- (length_fmap id), Hids. unfold ids_from.
    by rewrite length_fmap, length_seq.
  - reflexivity.
  - reflexivity.
Qed.

Lemma list_after_creates_witness :
  Forall (fun r => is_delete r = false)
    [POST_teas green_tea; PUT_teas_id (str "1") []; POST_teas []]
  /\ exists l,
      list_all
        (run initial
           [POST_teas green_tea; PUT_teas_id (str "1") []; POST_teas []]).1
      = ((run initial
            [POST_teas green_tea; PUT_teas_id (str "1") []; POST_teas []]).1,
         {| statusCode := 200; content := TeaArr l |})
      /\ id <$> l
         = ids_from 1
             (posts [POST_teas green_tea; PUT_teas_id (str "1") []; POST_teas []])
      /\ length l
         = posts [POST_teas green_tea; PUT_teas_id (str "1") []; POST_teas []].
Proof.
  assert (Forall (fun r => is_delete r = false)
            [POST_teas green_tea; PUT_teas_id (str "1") []; POST_teas []]) as H.
  { repeat constructor. }
  split; [exact H|].
  apply (list_after_creates [green_tea]
           [POST_teas green_tea; PUT_teas_id (str "1") []; POST_teas []]
           initial).
  exact H.
Defined.

(** C7: In every store, for every id of a record of the store, the response
    of [deleteById] has status 204 and an empty body: the text handed to
    [send] is dropped for this status. *)
Theorem delete_answers_no_content (s : store) (i : Z) :
  (exists t, t ∈ teaData s /\ id t = i) ->
  (deleteById s (Num i)).2 = {| statusCode := 204; content := Text [] |}
  /\ (delete_teas_id s (Number_toString i)).2
     = {| statusCode := 204; content := Text [] |}.
Proof.
  intros Hin.
  destruct (present_split s i Hin) as (l1 & t & l2 & Hl & Hid & Hl1).
  unfold delete_teas_id. rewrite parseInt_Number_toString.
  rewrite (deleteById_present s (Num i) l1 t l2 Hl)
    by (done || by apply strict_eq_Num).
  done.
Qed.

Lemma delete_answers_no_content_witness :
  (exists t, t ∈ teaData one_tea /\ id t = 1)
  /\ (deleteById one_tea (Num 1)).2
     = {| statusCode := 204; content := Text [] |}
  /\ (delete_teas_id one_tea (Number_toString 1)).2
     = {| statusCode := 204; content := Text [] |}.
Proof.
  assert (exists t, t ∈ teaData one_tea /\ id t = 1) as H.
  { eexists. split; [by left|reflexivity]. }
  split; [exact H|]. exact (delete_answers_no_content one_tea 1 H).
Defined.

(** ** Requests without a body *)

Lemma app_put_teas_id_Some s rid b :
  app_put_teas_id s rid (Some b)
  = ((put_teas_id s rid b).1, Sent (put_teas_id s rid b).2).
Proof.
  unfold app_put_teas_id, put_teas_id, updateById.
  by destruct (find _ _) as [[i t]|].
Qed.

(** A request that has its body is served as [handle] serves it. *)
Lemma serve_parsed s c r :
  parsed c = Some r -> serve s c = ((handle s r).1, Sent (handle s r).2).
Proof.
  destruct c as [[b|]| |rid|rid [b|]|rid]; intros [= <-]; try reflexivity.
  apply app_put_teas_id_Some.
Qed.

(** A request that lacks its body changes nothing, and is answered 404 when
    it is answered at all. *)
Lemma serve_unparsed s c :
  parsed c = None ->
  (serve s c).1 = s
  /\ ((serve s c).2 = Thrown TypeError
      \/ (serve s c).2 = Sent (not_found "tea not found ")).
Proof.
  destruct c as [[b|]| |rid|rid [b|]|rid]; intros [=]; cbn [serve].
  - split; [reflexivity|by left].
  - unfold app_put_teas_id. destruct (find _ _) as [[i t]|].
    + split; [reflexivity|by left].
    + split; [reflexivity|by right].
Qed.

Lemma serve_all_cons s c cs :
  serve_all s (c :: cs) =
  ((serve_all (serve s c).1 cs).1, (serve s c).2 :: (serve_all (serve s c).1 cs).2).
Proof. simpl. destruct (serve s c), (serve_all _ cs). reflexivity. Qed.






(** C9, as the claim states it, fails: the path string [1abc] is not an
    integer, and in the store that holds the record with id 1 the three
    routes treat it as the id 1. *)
Lemma non_integer_path_is_served :
  is_integer_string (str "1abc") = false
  /\ reachable one_tea
  /\ (get_teas_id one_tea (str "1abc")).2
     = {| statusCode := 200; content := TeaObj (tea_record 1 "Green Tea" 100) |}
  /\ (put_teas_id one_tea (str "1abc") []).2
     = {| statusCode := 200;
          content := TeaObj {| id := 1; name := VUndefined;
                               price := VUndefined |} |}
  /\ (delete_teas_id one_tea (str "1abc")).2
     = {| statusCode := 204; content := Text [] |}
  /\ teaData (delete_teas_id one_tea (str "1abc")).1 = [].
Proof.
  split_and!; try reflexivity. by exists [POST_teas green_tea].
Qed.

(** C9, amended: In every store, for every id path string that [parseInt]
    maps to [NaN], which is the case of every string that does not start,
    after leading white space and an optional sign, with a decimal digit,
    the three routes with an id answer 404 and leave the store as it is. *)
Theorem unparsable_id_is_not_found
  (s : store) (req_params_id : jsstring) (req_body : jsobject) :
  (leading_digit req_params_id = false -> parseInt req_params_id = NaN)
  /\ (parseInt req_params_id = NaN ->
      get_teas_id s req_params_id = (s, not_found "tea not found ")
      /\ put_teas_id s req_params_id req_body = (s, not_found "tea not found ")
      /\ delete_teas_id s req_params_id = (s, not_found "tea not found")).
Proof.
  split; [apply parseInt_no_leading_digit|].
  intros H. unfold get_teas_id, put_teas_id, delete_teas_id. rewrite H.
  split_and!.
  - by apply getById_absent.
  - by apply updateById_absent.
  - by apply deleteById_absent.
Qed.

Lemma unparsable_id_is_not_found_witness :
  leading_digit (str "abc") = false
  /\ parseInt (str "abc") = NaN
  /\ get_teas_id one_tea (str "abc") = (one_tea, not_found "tea not found ")
  /\ put_teas_id one_tea (str "abc") green_tea
     = (one_tea, not_found "tea not found ")
  /\ delete_teas_id one_tea (str "abc") = (one_tea, not_found "tea not found").
Proof.
  split; [reflexivity|]. split; [reflexivity|].
  apply (unparsable_id_is_not_found one_tea (str "abc") green_tea).
  reflexivity.
Defined.

(** C10: In every store and for every body, [POST /teas] depends on the body
    through its [name] and [price] only: two bodies that agree on these two
    give the same store and the same response, an [id] in the body changes
    nothing, and the id of the created record is [nextId]. *)
Theorem create_ignores_body_id (s : store) (b1 b2 : jsobject) (v : jsval) :
  (get_prop b1 (str "name") = get_prop b2 (str "name") ->
   get_prop b1 (str "price") = get_prop b2 (str "price") ->
   post_teas s b1 = post_teas s b2)
  /\ post_teas s ((str "id", v) :: b1) = post_teas s b1
  /\ exists t,
      (post_teas s ((str "id", v) :: b1)).2
      = {| statusCode := 201; content := TeaObj t |}
      /\ id t = nextId s.
Proof.
  split_and!.
  - intros Hn Hp. unfold post_teas. by rewrite Hn, Hp.
  - reflexivity.
  - eexists. split; reflexivity.
Qed.

Lemma create_ignores_body_id_witness :
  get_prop ((str "id", VNull) :: green_tea) (str "name")
    = get_prop green_tea (str "name")
  /\ get_prop ((str "id", VNull) :: green_tea) (str "price")
    = get_prop green_tea (str "price")
  /\ post_teas one_tea ((str "id", VNull) :: green_tea)
     = post_teas one_tea green_tea.
Proof.
  split_and!; [reflexivity|reflexivity|].
  apply (create_ignores_body_id one_tea
           ((str "id", VNull) :: green_tea) green_tea VNull); reflexivity.
Defined.

(** * Further properties of the handlers *)

(** ** Helper lemmas *)

Lemma effect_sorted s s' new :
  effect s s' new ->
  StronglySorted Z.lt (id <$> teaData s)
  /\ (forall t, t ∈ teaData s -> id t < nextId s) ->
  StronglySorted Z.lt (id <$> teaData s')
  /\ (forall t, t ∈ teaData s' -> id t < nextId s').
Proof.
  intros Heff [Hsort Hlt].
  destruct Heff as [|n p|l1 t l2 n p Hs|l1 t l2 Hs]; cbn [teaData nextId].
  - done.
  - split.
    + rewrite fmap_app. apply StronglySorted_app_2; [|done|].
      * intros x1 x2 Hx1 ->%list_elem_of_singleton.
        apply list_elem_of_fmap in Hx1 as (u & -> & Hu). by apply Hlt.
      * repeat constructor.
    + intros u [Hu| ->%list_elem_of_singleton]%elem_of_app.
      * specialize (Hlt u Hu). lia.
      * simpl. lia.
  - rewrite Hs in *. split.
    + by rewrite fmap_app, fmap_cons in *.
    + intros u [Hu|[->|Hu]%elem_of_cons]%elem_of_app.
      * apply Hlt, elem_of_app. by left.
      * apply (Hlt t), elem_of_app. right. by left.
      * apply Hlt, elem_of_app. right. by right.
  - rewrite Hs in *. split.
    + rewrite fmap_app, fmap_cons in Hsort. rewrite fmap_app.
      apply StronglySorted_app in Hsort as (Hcross & H1 & H2).
      apply StronglySorted_app_2; [|done|by inversion H2].
      intros x1 x2 Hx1 Hx2. apply Hcross; [done|by right].
    + intros u [Hu|Hu]%elem_of_app; apply Hlt, elem_of_app;
        [by left|right; by right].
Qed.

Lemma run_sorted rs : forall s,
  StronglySorted Z.lt (id <$> teaData s)
  /\ (forall t, t ∈ teaData s -> id t < nextId s) ->
  StronglySorted Z.lt (id <$> teaData (run s rs).1)
  /\ (forall t, t ∈ teaData (run s rs).1 -> id t < nextId (run s rs).1).
Proof.
  induction rs as [|r rs IH]; intros s Hs; [done|].
  rewrite run_cons. cbn [fst]. apply IH.
  eapply effect_sorted; [apply handle_effect|done].
Qed.

Lemma effect_absent s s' new i :
  effect s s' new ->
  i < nextId s /\ (forall t, t ∈ teaData s -> id t <> i) ->
  i < nextId s' /\ (forall t, t ∈ teaData s' -> id t <> i).
Proof.
  intros Heff [Hi Hne].
  destruct Heff as [|n p|l1 t l2 n p Hs|l1 t l2 Hs]; cbn [teaData nextId].
  - done.
  - split; [lia|].
    intros u [Hu| ->%list_elem_of_singleton]%elem_of_app; [by apply Hne|].
    simpl. lia.
  - rewrite Hs in *. split; [done|].
    intros u [Hu|[->|Hu]%elem_of_cons]%elem_of_app.
    + apply Hne, elem_of_app. by left.
    + apply (Hne t), elem_of_app. right. by left.
    + apply Hne, elem_of_app. right. by right.
  - rewrite Hs in *. split; [done|].
    intros u [Hu|Hu]%elem_of_app; apply Hne, elem_of_app;
      [by left|right; by right].
Qed.

Lemma run_absent rs i : forall s,
  i < nextId s /\ (forall t, t ∈ teaData s -> id t <> i) ->
  i < nextId (run s rs).1 /\ (forall t, t ∈ teaData (run s rs).1 -> id t <> i).
Proof.
  induction rs as [|r rs IH]; intros s Hs; [done|].
  rewrite run_cons. cbn [fst]. apply IH.
  eapply effect_absent; [apply handle_effect|done].
Qed.

(** What [getById] answers does not depend on a stretch of the array that
    holds no record with the id. *)
Lemma getById_skip s s' x l1 m m' l2 :
  teaData s = l1 ++ m ++ l2 ->
  teaData s' = l1 ++ m' ++ l2 ->
  (forall t, t ∈ m -> strict_eq (id t) x = false) ->
  (forall t, t ∈ m' -> strict_eq (id t) x = false) ->
  (getById s' x).2 = (getById s x).2.
Proof.
  intros Hs Hs' Hm Hm'.
  destruct (first_match (fun t => strict_eq (id t) x) l1)
    as [H1|(a & u & b & -> & Hu & Ha)].
  - destruct (first_match (fun t => strict_eq (id t) x) l2)
      as [H2|(a & u & b & -> & Hu & Ha)].
    + rewrite !getById_absent; [done|rewrite Hs|rewrite Hs'];
        intros t [?|[?|?]%elem_of_app]%elem_of_app; auto.
    + rewrite (getById_present s x (l1 ++ m ++ a) u b),
              (getById_present s' x (l1 ++ m' ++ a) u b); [done|..]; try done.
      * by rewrite Hs', <- !app_assoc.
      * intros t [?|[?|?]%elem_of_app]%elem_of_app; auto.
      * by rewrite Hs, <- !app_assoc.
      * intros t [?|[?|?]%elem_of_app]%elem_of_app; auto.
  - rewrite (getById_present s x a u (b ++ m ++ l2)),
            (getById_present s' x a u (b ++ m' ++ l2)); [done|..]; try done.
    + by rewrite Hs', <- app_assoc.
    + by rewrite Hs, <- app_assoc.
Qed.

Lemma handle_length s r :
  Z.of_nat (length (teaData (handle s r).1))
  = Z.of_nat (length (teaData s))
    + count_status 201 [(handle s r).2] - count_status 204 [(handle s r).2].
Proof.
  destruct r as [b| |rid|rid b|rid]; cbn [handle].
  - cbn. rewrite length_app. simpl. lia.
  - cbn. lia.
  - unfold get_teas_id.
    destruct (first_match (fun t => strict_eq (id t) (parseInt rid)) (teaData s))
      as [H|(l1 & t & l2 & Hs & Ht & Hl1)].
    + rewrite getById_absent by done. cbn. lia.
    + rewrite (getById_present s _ l1 t l2) by done. cbn. lia.
  - unfold put_teas_id.
    generalize (get_prop b (str "name")), (get_prop b (str "price")).
    intros n p.
    destruct (first_match (fun t => strict_eq (id t) (parseInt rid)) (teaData s))
      as [H|(l1 & t & l2 & Hs & Ht & Hl1)].
    + rewrite updateById_absent by done. cbn. lia.
    + rewrite (updateById_present s _ _ _ l1 t l2), Hs by done. cbn.
      rewrite !length_app. simpl. lia.
  - unfold delete_teas_id.
    destruct (first_match (fun t => strict_eq (id t) (parseInt rid)) (teaData s))
      as [H|(l1 & t & l2 & Hs & Ht & Hl1)].
    + rewrite deleteById_absent by done. cbn. lia.
    + rewrite (deleteById_present s _ l1 t l2), Hs by done. cbn.
      rewrite !length_app. simpl. lia.
Qed.

Lemma count_status_cons code out outs :
  count_status code (out :: outs)
  = count_status code [out] + count_status code outs.
Proof. simpl. lia. Qed.

Lemma run_length rs : forall s,
  Z.of_nat (length (teaData (run s rs).1))
  = Z.of_nat (length (teaData s))
    + count_status 201 (run s rs).2 - count_status 204 (run s rs).2.
Proof.
  induction rs as [|r rs IH]; intros s.
  - cbn. lia.
  - rewrite run_cons. cbn [fst snd].
    rewrite (count_status_cons 201 (handle s r).2),
            (count_status_cons 204 (handle s r).2).
    rewrite IH, handle_length. lia.
Qed.

Lemma digits_prefix_chars_app ds c rest :
  Forall (fun d => 0 <= d < 10) ds ->
  is_decimal_digit c = false ->
  digits_prefix 10 ((digit_char <$> ds) ++ c :: rest) = ds.
Proof.
  intros Hds Hc. induction Hds as [|d ds Hd _ IH].
  - simpl. by rewrite radix_digit_not_decimal.
  - rewrite fmap_cons. simpl. by rewrite radix_digit_char, IH.
Qed.

Lemma strip_prefix_chars_app d ds c rest :
  Forall (fun d => 0 <= d < 10) (d :: ds) ->
  (ds = [] -> d = 0 -> c <> 120%N /\ c <> 88%N) ->
  strip_prefix ((digit_char <$> d :: ds) ++ c :: rest)
  = (10, (digit_char <$> d :: ds) ++ c :: rest).
Proof.
  intros Hds Hc. apply Forall_cons in Hds as [Hd Hds].
  destruct Hds as [|d' ds' Hd' _].
  - digit_cases d H; try reflexivity.
    destruct (Hc eq_refl eq_refl) as [Hx HX]. cbn.
    destruct (N.eqb_spec c 120); [done|].
    destruct (N.eqb_spec c 88); [done|]. reflexivity.
  - digit_cases d H; try reflexivity.
    digit_cases d' H; reflexivity.
Qed.

Lemma parseInt_chars_app d ds c rest :
  Forall (fun d => 0 <= d < 10) (d :: ds) ->
  is_decimal_digit c = false ->
  (ds = [] -> d = 0 -> c <> 120%N /\ c <> 88%N) ->
  parseInt ((digit_char <$> d :: ds) ++ c :: rest) = Num (math_int 10 (d :: ds)).
Proof.
  intros Hds Hc Hx. pose proof (Forall_inv Hds) as Hd. simpl in Hd.
  unfold parseInt. rewrite fmap_cons. cbn [app].
  rewrite trim_start_char, strip_sign_char by done.
  change (digit_char d :: (digit_char <$> ds) ++ c :: rest)
    with ((digit_char <$> d :: ds) ++ c :: rest).
  rewrite strip_prefix_chars_app, digits_prefix_chars_app by done.
  by rewrite Z.mul_1_l.
Qed.

Lemma parseInt_minus_chars_app d ds c rest :
  Forall (fun d => 0 <= d < 10) (d :: ds) ->
  is_decimal_digit c = false ->
  (ds = [] -> d = 0 -> c <> 120%N /\ c <> 88%N) ->
  parseInt (45%N :: (digit_char <$> d :: ds) ++ c :: rest)
  = Num (- math_int 10 (d :: ds)).
Proof.
  intros Hds Hc Hx. unfold parseInt.
  change (trim_start (45%N :: (digit_char <$> d :: ds) ++ c :: rest))
    with (45%N :: (digit_char <$> d :: ds) ++ c :: rest).
  change (strip_sign (45%N :: (digit_char <$> d :: ds) ++ c :: rest))
    with (-1, (digit_char <$> d :: ds) ++ c :: rest).
  cbv beta iota.
  rewrite strip_prefix_chars_app, digits_prefix_chars_app by done.
  f_equal; lia.
Qed.

Lemma parseInt_plus_chars d ds :
  Forall (fun d => 0 <= d < 10) (d :: ds) ->
  parseInt (43%N :: (digit_char <$> d :: ds)) = Num (math_int 10 (d :: ds)).
Proof.
  intros Hds. unfold parseInt.
  change (trim_start (43%N :: (digit_char <$> d :: ds)))
    with (43%N :: (digit_char <$> d :: ds)).
  change (strip_sign (43%N :: (digit_char <$> d :: ds)))
    with (1, digit_char <$> d :: ds).
  cbv beta iota.
  rewrite strip_prefix_chars, digits_prefix_chars by done.
  by rewrite Z.mul_1_l.
Qed.

Lemma trim_start_white_space ws s :
  Forall (fun c => is_white_space c = true) ws ->
  trim_start (ws ++ s) = trim_start s.
Proof.
  induction 1 as [|c ws Hc _ IH]; [done|]. simpl. by rewrite Hc.
Qed.

Lemma distinct_ids_middle (l1 l2 : list tea) t :
  NoDup (id <$> l1 ++ t :: l2) ->
  forall u, u ∈ l1 ++ l2 -> id u <> id t.
Proof.
  rewrite fmap_app, fmap_cons. intros Hnd.
  apply NoDup_app in Hnd as (_ & Hdisj & [Hnot _]%NoDup_cons).
  intros u [Hu|Hu]%elem_of_app Heq.
  - apply (Hdisj (id u)); [by apply list_elem_of_fmap_2|].
    rewrite Heq. by left.
  - apply Hnot. rewrite <- Heq. by apply list_elem_of_fmap_2.
Qed.

Lemma initial_sorted :
  StronglySorted Z.lt (id <$> teaData initial)
  /\ (forall t, t ∈ teaData initial -> id t < nextId initial).
Proof.
  split; [constructor|]. intros t Ht. by apply elem_of_nil in Ht.
Qed.

(** ** The counter and the array over a run *)

Lemma handle_status_201 s r :
  count_status 201 [(handle s r).2] = (if is_post r then 1 else 0).
Proof.
  destruct r as [b| |rid|rid b|rid]; cbn [handle is_post].
  - reflexivity.
  - reflexivity.
  - unfold get_teas_id.
    destruct (first_match (fun t => strict_eq (id t) (parseInt rid)) (teaData s))
      as [H|(l1 & t & l2 & Hs & Ht & Hl1)].
    + by rewrite getById_absent.
    + by rewrite (getById_present s _ l1 t l2).
  - unfold put_teas_id.
    generalize (get_prop b (str "name")), (get_prop b (str "price")).
    intros n p.
    destruct (first_match (fun t => strict_eq (id t) (parseInt rid)) (teaData s))
      as [H|(l1 & t & l2 & Hs & Ht & Hl1)].
    + by rewrite updateById_absent.
    + by rewrite (updateById_present s _ _ _ l1 t l2).
  - unfold delete_teas_id.
    destruct (first_match (fun t => strict_eq (id t) (parseInt rid)) (teaData s))
      as [H|(l1 & t & l2 & Hs & Ht & Hl1)].
    + by rewrite deleteById_absent.
    + by rewrite (deleteById_present s _ l1 t l2).
Qed.

Lemma serve_created s c :
  count_status 201 (sent_responses [(serve s c).2])
  = match c with POST (Some _) => 1 | _ => 0 end
  /\ nextId (serve s c).1
     = nextId s + count_status 201 (sent_responses [(serve s c).2]).
Proof.
  destruct (parsed c) as [r|] eqn:Hc.
  - rewrite (serve_parsed s c r Hc). cbn [fst snd sent_responses omap].
    change (count_status 201 [(handle s r).2] =
            match c with POST (Some _) => 1 | _ => 0 end
            /\ nextId (handle s r).1
               = nextId s + count_status 201 [(handle s r).2]).
    rewrite handle_status_201. destruct (handle_created s r) as [_ ->].
    destruct c as [[b|]| |rid|rid [b|]|rid]; simplify_eq/=; split; lia.
  - destruct (serve_unparsed s c Hc) as [-> [-> | ->]];
      destruct c as [[b|]| |rid|rid [b|]|rid]; simplify_eq/=; split; lia.
Qed.

Lemma sent_responses_cons o outs :
  sent_responses (o :: outs) = sent_responses [o] ++ sent_responses outs.
Proof. unfold sent_responses. simpl. by destruct o. Qed.

Lemma count_status_app code outs1 outs2 :
  count_status code (outs1 ++ outs2)
  = count_status code outs1 + count_status code outs2.
Proof. induction outs1 as [|o outs1 IH]; simpl; lia. Qed.

Lemma serve_all_created cs : forall s,
  nextId (serve_all s cs).1
  = nextId s + count_status 201 (sent_responses (serve_all s cs).2).
Proof.
  induction cs as [|c cs IH]; intros s.
  - cbn. lia.
  - rewrite serve_all_cons. cbn [fst snd].
    rewrite sent_responses_cons, count_status_app, IH.
    destruct (serve_created s c) as [_ ->]. lia.
Qed.

(** X1: [nextId] counts the creates that were carried out.  Among the
    requests, with or without a body, the 201 responses are those to a
    [POST /teas] whose body was parsed, and each adds one to [nextId]; a
    [POST /teas] whose body is [undefined] throws before [nextId++], and
    every other request leaves [nextId] alone.  So after any requests served
    from the initial store [nextId] is one more than the number of 201
    responses. *)
Theorem nextId_counts_created
  (cs : list http_request) (s : store) (c : http_request) :
  count_status 201 (sent_responses [(serve s c).2])
  = match c with POST (Some _) => 1 | _ => 0 end
  /\ nextId (serve s c).1
     = nextId s + count_status 201 (sent_responses [(serve s c).2])
  /\ nextId (serve_all s cs).1
     = nextId s + count_status 201 (sent_responses (serve_all s cs).2)
  /\ nextId (serve_all initial cs).1
     = 1 + count_status 201 (sent_responses (serve_all initial cs).2)
  /\ serve s (POST None) = (s, Thrown TypeError).
Proof.
  split_and!.
  - apply serve_created.
  - apply serve_created.
  - apply serve_all_created.
  - apply (serve_all_created cs initial).
  - reflexivity.
Qed.

(** X2: Whatever requests were served from the initial store, the records of
    [teaData] are in strictly increasing order of id: updates and deletes
    never disturb the order in which the records were created. *)
Theorem records_sorted_by_id (rs : list request) :
  StronglySorted Z.lt (id <$> teaData (run initial rs).1).
Proof. apply (run_sorted rs initial initial_sorted). Qed.

(** X3: Whatever requests were served from the initial store, the number of
    records in [teaData] is the number of 201 responses minus the number of
    204 responses: each successful create adds one record, each successful
    delete removes one, and nothing else changes the number. *)
Theorem record_count_accounting (rs : list request) :
  Z.of_nat (length (teaData (run initial rs).1))
  = count_status 201 (run initial rs).2 - count_status 204 (run initial rs).2.
Proof. rewrite run_length. simpl. lia. Qed.

(** X4: A request that is answered 404, and any [GET] request, leaves
    [teaData] and [nextId] exactly as they were. *)
Theorem not_found_and_reads_keep_store (s : store) (r : request) :
  statusCode (handle s r).2 = 404 \/ is_get r = true ->
  (handle s r).1 = s.
Proof.
  intros H. destruct r as [b| |rid|rid b|rid]; cbn [handle] in *.
  - destruct H as [H|H]; discriminate H.
  - reflexivity.
  - apply getById_store.
  - destruct H as [H|H]; [|discriminate H]. unfold put_teas_id in *.
    destruct (first_match (fun t => strict_eq (id t) (parseInt rid)) (teaData s))
      as [Ha|(l1 & t & l2 & Hs & Ht & Hl1)].
    + by rewrite updateById_absent.
    + rewrite (updateById_present s _ _ _ l1 t l2) in H by done.
      discriminate H.
  - destruct H as [H|H]; [|discriminate H]. unfold delete_teas_id in *.
    destruct (first_match (fun t => strict_eq (id t) (parseInt rid)) (teaData s))
      as [Ha|(l1 & t & l2 & Hs & Ht & Hl1)].
    + by rewrite deleteById_absent.
    + rewrite (deleteById_present s _ l1 t l2) in H by done.
      discriminate H.
Qed.

Lemma not_found_and_reads_keep_store_witness :
  (statusCode (handle one_tea (PUT_teas_id (str "5") green_tea)).2 = 404
   \/ is_get (PUT_teas_id (str "5") green_tea) = true)
  /\ (handle one_tea (PUT_teas_id (str "5") green_tea)).1 = one_tea.
Proof.
  assert (statusCode (handle one_tea (PUT_teas_id (str "5") green_tea)).2 = 404
          \/ is_get (PUT_teas_id (str "5") green_tea) = true) as H.
  { left. reflexivity. }
  split; [exact H|].
  exact (not_found_and_reads_keep_store one_tea
           (PUT_teas_id (str "5") green_tea) H).
Defined.

(** ** Looking records up *)

(** X5: [getById] answers 200 exactly when the array holds a record with the
    id, and the record it sends is then a record of the array with this id;
    otherwise no record has the id and the answer is 404.  In both cases the
    store is unchanged. *)
Theorem getById_finds_exactly (s : store) (i : Z) :
  (exists t, t ∈ teaData s /\ id t = i
             /\ getById s (Num i)
                = (s, {| statusCode := 200; content := TeaObj t |}))
  \/ ((forall t, t ∈ teaData s -> id t <> i)
      /\ getById s (Num i) = (s, not_found "tea not found ")).
Proof.
  destruct (first_match (fun t => strict_eq (id t) (Num i)) (teaData s))
    as [H|(l1 & t & l2 & Hs & Ht & Hl1)].
  - right. split.
    + intros t Ht. by apply strict_eq_Num_false, H.
    + by apply getById_absent.
  - left. exists t. split_and!.
    + rewrite Hs. apply elem_of_app. right. by left.
    + by apply strict_eq_Num.
    + by apply (getById_present s _ l1 t l2).
Qed.

(** X6: In every store the program can be in, each record of the array,
    hence each record that [GET /teas] lists, is the one [getById] returns
    for its id, also through [GET /teas/:id] with the id in decimal. *)
Theorem listed_record_is_fetched (s : store) (t : tea) :
  reachable s ->
  t ∈ teaData s ->
  getById s (Num (id t)) = (s, {| statusCode := 200; content := TeaObj t |})
  /\ get_teas_id s (Number_toString (id t))
     = (s, {| statusCode := 200; content := TeaObj t |}).
Proof.
  intros Hs Ht. destruct (reachable_ids s Hs) as [Hnd _].
  apply list_elem_of_split in Ht as (l1 & l2 & Hl).
  rewrite Hl in Hnd.
  assert (getById s (Num (id t))
          = (s, {| statusCode := 200; content := TeaObj t |})) as Hget.
  { apply (getById_present s _ l1 t l2 Hl); [by apply strict_eq_Num|].
    intros u Hu. apply strict_eq_Num_false.
    apply (distinct_ids_middle l1 l2 t Hnd), elem_of_app. by left. }
  split; [exact Hget|].
  unfold get_teas_id. by rewrite parseInt_Number_toString.
Qed.

Lemma listed_record_is_fetched_witness :
  reachable one_tea
  /\ tea_record 1 "Green Tea" 100 ∈ teaData one_tea
  /\ getById one_tea (Num (id (tea_record 1 "Green Tea" 100)))
     = (one_tea, {| statusCode := 200;
                    content := TeaObj (tea_record 1 "Green Tea" 100) |})
  /\ get_teas_id one_tea (Number_toString (id (tea_record 1 "Green Tea" 100)))
     = (one_tea, {| statusCode := 200;
                    content := TeaObj (tea_record 1 "Green Tea" 100) |}).
Proof.
  assert (reachable one_tea) as H1 by (by exists [POST_teas green_tea]).
  assert (tea_record 1 "Green Tea" 100 ∈ teaData one_tea) as H2 by (by left).
  split; [exact H1|]. split; [exact H2|].
  exact (listed_record_is_fetched one_tea (tea_record 1 "Green Tea" 100) H1 H2).
Defined.

(** X7: In every store, after [updateById] on the id of a record of the
    array, [getById] on this id returns the record with the new name and
    price. *)
Theorem get_after_update (s : store) (i : Z) (n p : jsval) :
  (exists t, t ∈ teaData s /\ id t = i) ->
  getById (updateById s (Num i) n p).1 (Num i)
  = ((updateById s (Num i) n p).1,
     {| statusCode := 200;
        content := TeaObj {| id := i; name := n; price := p |} |}).
Proof.
  intros Hin.
  destruct (present_split s i Hin) as (l1 & t & l2 & Hl & Hid & Hl1). subst i.
  rewrite (updateById_present s _ n p l1 t l2 Hl)
    by (done || by apply strict_eq_Num).
  cbn [fst].
  apply (getById_present _ _ l1 (Tea (id t) n p) l2);
    [reflexivity|by apply strict_eq_Num|done].
Qed.

Lemma get_after_update_witness :
  (exists t, t ∈ teaData one_tea /\ id t = 1)
  /\ getById (updateById one_tea (Num 1) VNull VNull).1 (Num 1)
     = ((updateById one_tea (Num 1) VNull VNull).1,
        {| statusCode := 200;
           content := TeaObj {| id := 1; name := VNull; price := VNull |} |}).
Proof.
  assert (exists t, t ∈ teaData one_tea /\ id t = 1) as H.
  { eexists. split; [by left|reflexivity]. }
  split; [exact H|]. exact (get_after_update one_tea 1 VNull VNull H).
Defined.

(** X8: Of two [updateById] on the same id the second one wins: the store
    and the response are those of the second update alone, whether or not
    the id is in the array.  In particular, repeating an update changes
    nothing. *)
Theorem update_last_write_wins
  (s : store) (x : number) (n1 p1 n2 p2 : jsval) :
  updateById (updateById s x n1 p1).1 x n2 p2 = updateById s x n2 p2.
Proof.
  destruct (first_match (fun t => strict_eq (id t) x) (teaData s))
    as [H|(l1 & t & l2 & Hs & Ht & Hl1)].
  - rewrite (updateById_absent s x n1 p1) by done. reflexivity.
  - rewrite (updateById_present s x n1 p1 l1 t l2) by done. cbn [fst].
    rewrite (updateById_present _ x n2 p2 l1 (Tea (id t) n1 p1) l2),
            (updateById_present s x n2 p2 l1 t l2) by done.
    reflexivity.
Qed.

(** ** How the operations compose *)

(** X9: An operation on one id does not change what [getById] answers for
    another id: not [updateById], not [deleteById], and not [create] unless
    the other id is the one [create] hands out. *)
Theorem other_ids_untouched (s : store) (i j : Z) (n p : jsval) :
  i <> j ->
  (getById (updateById s (Num i) n p).1 (Num j)).2 = (getById s (Num j)).2
  /\ (getById (deleteById s (Num i)).1 (Num j)).2 = (getById s (Num j)).2
  /\ (nextId s <> j ->
      (getById (create s n p).1 (Num j)).2 = (getById s (Num j)).2).
Proof.
  intros Hij.
  assert (forall t : tea, id t = i -> strict_eq (id t) (Num j) = false) as Hoff.
  { intros t Ht. apply strict_eq_Num_false. congruence. }
  split_and!.
  - destruct (first_match (fun t => strict_eq (id t) (Num i)) (teaData s))
      as [H|(l1 & t & l2 & Hs & Ht & Hl1)].
    + by rewrite updateById_absent.
    + rewrite (updateById_present s _ n p l1 t l2) by done. cbn [fst].
      apply strict_eq_Num in Ht.
      apply (getById_skip s _ (Num j) l1 [t] [Tea (id t) n p] l2);
        [done|done|..]; intros u ->%list_elem_of_singleton; by apply Hoff.
  - destruct (first_match (fun t => strict_eq (id t) (Num i)) (teaData s))
      as [H|(l1 & t & l2 & Hs & Ht & Hl1)].
    + by rewrite deleteById_absent.
    + rewrite (deleteById_present s _ l1 t l2) by done. cbn [fst].
      apply strict_eq_Num in Ht.
      apply (getById_skip s _ (Num j) l1 [t] [] l2); [done|done|..].
      * intros u ->%list_elem_of_singleton. by apply Hoff.
      * intros u Hu. by apply elem_of_nil in Hu.
  - intros Hnext.
    apply (getById_skip s _ (Num j) (teaData s) [] [Tea (nextId s) n p] []).
    + by rewrite !app_nil_r.
    + reflexivity.
    + intros u Hu. by apply elem_of_nil in Hu.
    + intros u ->%list_elem_of_singleton. by apply strict_eq_Num_false.
Qed.

Lemma other_ids_untouched_witness :
  2 <> 1
  /\ (getById (updateById one_tea (Num 2) VNull VNull).1 (Num 1)).2
     = (getById one_tea (Num 1)).2
  /\ (getById (deleteById one_tea (Num 2)).1 (Num 1)).2
     = (getById one_tea (Num 1)).2
  /\ (nextId one_tea <> 1 ->
      (getById (create one_tea VNull VNull).1 (Num 1)).2
      = (getById one_tea (Num 1)).2).
Proof.
  assert (2 <> 1) as H by lia.
  split; [exact H|]. exact (other_ids_untouched one_tea 2 1 VNull VNull H).
Defined.

(** X10: In every store the program can be in, once a record is deleted its
    id is gone for good: whatever requests are served afterwards, no record
    of the array has this id and [getById] on it answers 404. *)
Theorem deleted_id_stays_missing (s : store) (i : Z) (rs : list request) :
  reachable s ->
  (exists t, t ∈ teaData s /\ id t = i) ->
  (forall t, t ∈ teaData (run (deleteById s (Num i)).1 rs).1 -> id t <> i)
  /\ getById (run (deleteById s (Num i)).1 rs).1 (Num i)
     = ((run (deleteById s (Num i)).1 rs).1, not_found "tea not found ").
Proof.
  intros Hs Hin. destruct (reachable_ids s Hs) as [Hnd Hlt].
  destruct (present_split s i Hin) as (l1 & t & l2 & Hl & Hid & Hl1). subst i.
  rewrite (deleteById_present s _ l1 t l2 Hl)
    by (done || by apply strict_eq_Num).
  cbn [fst].
  assert (id t < nextId s) as Hi.
  { apply Hlt. rewrite Hl. apply elem_of_app. right. by left. }
  rewrite Hl in Hnd.
  destruct (run_absent rs (id t) {| teaData := l1 ++ l2; nextId := nextId s |})
    as [_ Hne].
  { split; [exact Hi|]. exact (distinct_ids_middle l1 l2 t Hnd). }
  split; [exact Hne|].
  apply getById_absent. by apply absent_strict_eq.
Qed.

Lemma deleted_id_stays_missing_witness :
  reachable one_tea
  /\ (exists t, t ∈ teaData one_tea /\ id t = 1)
  /\ (forall t,
        t ∈ teaData (run (deleteById one_tea (Num 1)).1
                       [POST_teas green_tea; PUT_teas_id (str "1") []]).1 ->
        id t <> 1)
  /\ getById (run (deleteById one_tea (Num 1)).1
                [POST_teas green_tea; PUT_teas_id (str "1") []]).1 (Num 1)
     = ((run (deleteById one_tea (Num 1)).1
           [POST_teas green_tea; PUT_teas_id (str "1") []]).1,
        not_found "tea not found ").
Proof.
  assert (reachable one_tea) as H1 by (by exists [POST_teas green_tea]).
  assert (exists t, t ∈ teaData one_tea /\ id t = 1) as H2.
  { eexists. split; [by left|reflexivity]. }
  split; [exact H1|]. split; [exact H2|].
  exact (deleted_id_stays_missing one_tea 1
           [POST_teas green_tea; PUT_teas_id (str "1") []] H1 H2).
Defined.

(** X11: In every store the program can be in, an id that was never handed
    out, that is one below 1 or not below [nextId], is not found: the three
    operations with an id answer 404 and leave the store as it is. *)
Theorem unissued_id_is_not_found (s : store) (i : Z) (n p : jsval) :
  reachable s ->
  i < 1 \/ nextId s <= i ->
  getById s (Num i) = (s, not_found "tea not found ")
  /\ updateById s (Num i) n p = (s, not_found "tea not found ")
  /\ deleteById s (Num i) = (s, not_found "tea not found").
Proof.
  intros Hs Hi. destruct (reachable_ids s Hs) as [_ Hlt].
  assert (forall t, t ∈ teaData s -> strict_eq (id t) (Num i) = false) as H.
  { apply absent_strict_eq. intros t Ht. specialize (Hlt t Ht). lia. }
  split_and!.
  - by apply getById_absent.
  - by apply updateById_absent.
  - by apply deleteById_absent.
Qed.

Lemma unissued_id_is_not_found_witness :
  reachable one_tea
  /\ (0 < 1 \/ nextId one_tea <= 0)
  /\ getById one_tea (Num 0) = (one_tea, not_found "tea not found ")
  /\ updateById one_tea (Num 0) VNull VNull
     = (one_tea, not_found "tea not found ")
  /\ deleteById one_tea (Num 0) = (one_tea, not_found "tea not found").
Proof.
  assert (reachable one_tea) as H1 by (by exists [POST_teas green_tea]).
  assert (0 < 1 \/ nextId one_tea <= 0) as H2 by (left; lia).
  split; [exact H1|]. split; [exact H2|].
  exact (unissued_id_is_not_found one_tea 0 VNull VNull H1 H2).
Defined.

(** X12: In every store the program can be in, deleting the record that a
    create has just added gives back the array as it was before the create,
    while [nextId] stays advanced, so that the id is not handed out again. *)
Theorem create_then_delete_restores_records (s : store) (n p : jsval) :
  reachable s ->
  deleteById (create s n p).1 (Num (nextId s))
  = ({| teaData := teaData s; nextId := nextId s + 1 |},
     {| statusCode := 204; content := Text [] |}).
Proof.
  intros Hs. destruct (reachable_ids s Hs) as [_ Hlt].
  rewrite (deleteById_present _ _ (teaData s) (Tea (nextId s) n p) []).
  - cbn [create fst teaData nextId]. by rewrite app_nil_r.
  - reflexivity.
  - by apply strict_eq_Num.
  - intros u Hu. apply strict_eq_Num_false. specialize (Hlt u Hu). lia.
Qed.

Lemma create_then_delete_restores_records_witness :
  reachable one_tea
  /\ deleteById (create one_tea VNull VNull).1 (Num (nextId one_tea))
     = ({| teaData := teaData one_tea; nextId := nextId one_tea + 1 |},
        {| statusCode := 204; content := Text [] |}).
Proof.
  assert (reachable one_tea) as H by (by exists [POST_teas green_tea]).
  split; [exact H|].
  exact (create_then_delete_restores_records one_tea VNull VNull H).
Defined.

(** ** The id in the path *)

(** X13: [parseInt] reads back the decimal form of every integer a Number
    holds exactly, so that the three routes with an id, called with such an
    id in decimal, are the operations on this id. *)
Theorem decimal_path_reaches_id (s : store) (i : Z) (req_body : jsobject) :
  safe_integer i ->
  parseInt (Number_toString i) = Num i
  /\ get_teas_id s (Number_toString i) = getById s (Num i)
  /\ put_teas_id s (Number_toString i) req_body
     = updateById s (Num i) (get_prop req_body (str "name"))
                            (get_prop req_body (str "price"))
  /\ delete_teas_id s (Number_toString i) = deleteById s (Num i).
Proof.
  intros _. unfold get_teas_id, put_teas_id, delete_teas_id.
  by rewrite parseInt_Number_toString.
Qed.

Lemma decimal_path_reaches_id_witness :
  safe_integer 42
  /\ parseInt (Number_toString 42) = Num 42
  /\ get_teas_id one_tea (Number_toString 42) = getById one_tea (Num 42)
  /\ put_teas_id one_tea (Number_toString 42) green_tea
     = updateById one_tea (Num 42) (get_prop green_tea (str "name"))
                                   (get_prop green_tea (str "price"))
  /\ delete_teas_id one_tea (Number_toString 42) = deleteById one_tea (Num 42).
Proof.
  assert (safe_integer 42) as H by (unfold safe_integer; lia).
  split; [exact H|]. exact (decimal_path_reaches_id one_tea 42 green_tea H).
Defined.

(** X14: [parseInt] stops at the first code unit that is not a decimal
    digit: a path made of an integer that a Number holds exactly, in
    decimal, and a tail that starts with such a code unit is read as the
    integer, and the three routes serve it as this id.  The one exception is
    a tail starting with [x] or [X] after the single digit 0, which
    announces a hexadecimal number. *)
Theorem trailing_text_is_ignored
  (s : store) (n : Z) (c : N) (rest : jsstring) (req_body : jsobject) :
  safe_integer n ->
  is_decimal_digit c = false ->
  (n = 0 -> c <> 120%N /\ c <> 88%N) ->
  parseInt (Number_toString n ++ c :: rest) = Num n
  /\ get_teas_id s (Number_toString n ++ c :: rest) = getById s (Num n)
  /\ put_teas_id s (Number_toString n ++ c :: rest) req_body
     = updateById s (Num n) (get_prop req_body (str "name"))
                            (get_prop req_body (str "price"))
  /\ delete_teas_id s (Number_toString n ++ c :: rest) = deleteById s (Num n).
Proof.
  intros _ Hc Hx.
  assert (parseInt (Number_toString n ++ c :: rest) = Num n) as H.
  { unfold Number_toString. destruct (Z.ltb_spec n 0) as [Hn|Hn].
    - destruct (decimal_digits_cons (Z.to_nat (Z.log2 (- n))) (- n))
        as (d & ds & Hds).
      pose proof (decimal_digits_range (S (Z.to_nat (Z.log2 (- n)))) (- n)) as Hr.
      pose proof (decimal_digits_value (S (Z.to_nat (Z.log2 (- n)))) (- n)) as Hv.
      rewrite Hds in *.
      assert (math_int 10 (d :: ds) = - n) as Hval.
      { apply Hv. split; [lia|]. apply enough_fuel. lia. }
      change ((45%N :: (digit_char <$> d :: ds)) ++ c :: rest)
        with (45%N :: (digit_char <$> d :: ds) ++ c :: rest).
      rewrite parseInt_minus_chars_app; [f_equal; lia|apply Hr; lia|done|].
      intros -> ->. unfold math_int in Hval. simpl in Hval. lia.
    - destruct (decimal_digits_cons (Z.to_nat (Z.log2 n)) n) as (d & ds & Hds).
      pose proof (decimal_digits_range (S (Z.to_nat (Z.log2 n))) n) as Hr.
      pose proof (decimal_digits_value (S (Z.to_nat (Z.log2 n))) n) as Hv.
      rewrite Hds in *.
      assert (math_int 10 (d :: ds) = n) as Hval.
      { apply Hv. split; [lia|]. by apply enough_fuel. }
      rewrite parseInt_chars_app; [by rewrite Hval|apply Hr; lia|done|].
      intros -> ->. unfold math_int in Hval. simpl in Hval. by apply Hx. }
  unfold get_teas_id, put_teas_id, delete_teas_id. by rewrite H.
Qed.

Lemma trailing_text_is_ignored_witness :
  safe_integer 12
  /\ is_decimal_digit 97 = false
  /\ (12 = 0 -> 97%N <> 120%N /\ 97%N <> 88%N)
  /\ parseInt (Number_toString 12 ++ 97%N :: str "bc") = Num 12
  /\ get_teas_id one_tea (Number_toString 12 ++ 97%N :: str "bc")
     = getById one_tea (Num 12)
  /\ put_teas_id one_tea (Number_toString 12 ++ 97%N :: str "bc") green_tea
     = updateById one_tea (Num 12) (get_prop green_tea (str "name"))
                                   (get_prop green_tea (str "price"))
  /\ delete_teas_id one_tea (Number_toString 12 ++ 97%N :: str "bc")
     = deleteById one_tea (Num 12).
Proof.
  assert (safe_integer 12) as H0 by (unfold safe_integer; lia).
  assert (is_decimal_digit 97 = false) as H1 by reflexivity.
  assert (12 = 0 -> 97%N <> 120%N /\ 97%N <> 88%N) as H2 by lia.
  split; [exact H0|]. split; [exact H1|]. split; [exact H2|].
  exact (trailing_text_is_ignored one_tea 12 97%N (str "bc") green_tea
           H0 H1 H2).
Defined.

(** X15: [parseInt] skips leading white space, and a plus sign before the
    digits: a path with white space in front is read, and served by
    [GET /teas/:id], as the path without it, and white space followed by a
    plus sign and a non-negative integer that a Number holds exactly, in
    decimal, is read as the integer. *)
Theorem leading_white_space_is_ignored
  (s : store) (ws path : jsstring) (n : Z) :
  Forall (fun c => is_white_space c = true) ws ->
  parseInt (ws ++ path) = parseInt path
  /\ get_teas_id s (ws ++ path) = get_teas_id s path
  /\ (0 <= n -> safe_integer n ->
      parseInt (ws ++ 43%N :: Number_toString n) = Num n).
Proof.
  intros Hws.
  assert (forall q, parseInt (ws ++ q) = parseInt q) as H.
  { intros q. unfold parseInt. by rewrite trim_start_white_space. }
  split_and!.
  - apply H.
  - unfold get_teas_id. by rewrite H.
  - intros Hn _. rewrite H. unfold Number_toString.
    destruct (Z.ltb_spec n 0) as [?|_]; [lia|].
    destruct (decimal_digits_cons (Z.to_nat (Z.log2 n)) n) as (d & ds & Hds).
    pose proof (decimal_digits_range (S (Z.to_nat (Z.log2 n))) n) as Hr.
    pose proof (decimal_digits_value (S (Z.to_nat (Z.log2 n))) n) as Hv.
    rewrite Hds in *. rewrite parseInt_plus_chars by (apply Hr; lia).
    rewrite Hv; [done|]. split; [lia|]. by apply enough_fuel.
Qed.

Lemma leading_white_space_is_ignored_witness :
  Forall (fun c => is_white_space c = true) [32%N; 9%N]
  /\ 0 <= 7
  /\ safe_integer 7
  /\ parseInt ([32%N; 9%N] ++ str "1") = parseInt (str "1")
  /\ get_teas_id one_tea ([32%N; 9%N] ++ str "1") = get_teas_id one_tea (str "1")
  /\ parseInt ([32%N; 9%N] ++ 43%N :: Number_toString 7) = Num 7.
Proof.
  assert (Forall (fun c => is_white_space c = true) [32%N; 9%N]) as H.
  { repeat constructor. }
  assert (0 <= 7) as H1 by lia.
  assert (safe_integer 7) as H2 by (unfold safe_integer; lia).
  destruct (leading_white_space_is_ignored one_tea [32%N; 9%N] (str "1") 7 H)
    as (Ha & Hb & Hc).
  split; [exact H|]. split; [exact H1|]. split; [exact H2|].
  split; [exact Ha|]. split; [exact Hb|]. exact (Hc H1 H2).
Defined.
